(** * RoboGrammar viewer: the driver [main] of examples/viewer/main.cpp

    The driver grows a robot graph from a one-node seed by a sequence of
    grammar rules, builds a robot from it, optionally optimises a control
    trajectory episode by episode (feeding a replay buffer that retrains
    the value estimator), and optionally replays the recorded controls in
    a viewer.

    The graph grammar, the physics simulation, the optimizer, the value
    estimator and the viewer are libraries that [main] only calls.  They
    appear here as interfaces (type classes); [main] itself is embedded
    statement by statement, and every call it makes to a collaborator is
    recorded in a trace of events. *)

From Stdlib Require Import ZArith NArith Floats.
From stdpp Require Import base tactics option list strings numbers.

Local Open Scope string_scope.
Local Open Scope Z_scope.
Local Open Scope list_scope.

(** ** Scalars

    [Scalar] is the floating-point type of the library.  Only the
    operations that [main] performs itself are needed; no algebraic law
    is assumed about them. *)

Class ScalarOps (Scalar : Type) := {
  s_zero : Scalar;                         (* the literal 0.0 *)
  s_add : Scalar -> Scalar -> Scalar;      (* operator+ *)
  s_mul : Scalar -> Scalar -> Scalar;      (* operator* *)
  s_sum : list Scalar -> Scalar;           (* Eigen's VectorX::sum() *)
}.

#[global] Instance scalar_inhabited `{ScalarOps Scalar} : Inhabited Scalar :=
  populate s_zero.

(** The scalar constants of [main], and [indeterminate]: the content of
    storage that Eigen allocates without initialising it.  The time step
    [1.0 / 240] only reaches the simulations' constructor, so it is part
    of [make_sim_fn] below. *)
Class MainConstants (Scalar : Type) := {
  discount_factor : Scalar;                (* 0.99 *)
  kappa : Scalar;                          (* 100.0 *)
  indeterminate : Scalar;
}.

(** ** Graphs and rules (robot_design/graph.h)

    The aggregate initialiser of [robot_graph] in [main] fixes the shape
    of [Graph] and [Node]; the element types stay abstract. *)

Class GraphTypes := {
  NodeAttributes : Type;
  Edge : Type;
  Subgraph : Type;
  mkNodeAttributes : string -> NodeAttributes;   (* NodeAttributes("...") *)
}.

Record Node `{GraphTypes} := mkNode {
  node_name : string;
  node_attrs : NodeAttributes;
}.

Record Graph `{GraphTypes} := mkGraph {
  name_ : string;
  nodes_ : list Node;
  edges_ : list Edge;
  subgraphs_ : list Subgraph;
}.

Class GraphGrammar `{GraphTypes} := {
  Rule : Type;
  GraphMapping : Type;
  lhs_ : Rule -> Graph;
  loadGraphs : string -> list Graph;
  createRuleFromGraph : Graph -> Rule;
  findMatches : Graph -> Graph -> list GraphMapping;
  applyRule : Rule -> Graph -> GraphMapping -> Graph;
}.

(** ** The trace monad

    A computation returns a value together with the events it caused, in
    order. *)

Section Trace.
Context {Ev : Type}.

Definition M (A : Type) : Type := (A * list Ev)%type.

Definition ret {A} (a : A) : M A := (a, []).

Definition bind {A B} (m : M A) (f : A -> M B) : M B :=
  let '(b, t) := f m.1 in (b, m.2 ++ t).

Definition emit (e : Ev) : M unit := (tt, [e]).

Definition value {A} (m : M A) : A := m.1.
Definition events {A} (m : M A) : list Ev := m.2.
End Trace.

Arguments M : clear implicits.

Notation "'do' x <- m ; k" := (bind m (fun x => k))
  (at level 10, x name, m at level 100, k at level 200,
   format "'[v' 'do'  x  <-  m ; '/' k ']'").
Notation "'do' ' pat <- m ; k" :=
  (bind m (fun x => match x with pat => k end))
  (at level 10, pat pattern, m at level 100, k at level 200,
   format "'[v' 'do'  ' pat  <-  m ; '/' k ']'").
Notation "'call' m ; k" := (bind m (fun _ => k))
  (at level 10, m at level 100, k at level 200,
   format "'[v' 'call'  m ; '/' k ']'").

(** A counted loop: [for (j = lo; j < lo + n; ++j) s = body(j, s)]. *)
Fixpoint for_loop {Ev St} (n lo : nat) (body : nat -> St -> M Ev St)
    (s : St) : M Ev St :=
  match n with
  | O => ret s
  | S n' => do s' <- body lo s; for_loop n' (S lo) body s'
  end.

(** ** The simulation port (robot_design/sim.h, robot.h)

    [Dyn] is the full dynamical state of one simulation.  Lines 102-128
    of [main] (the floor, the temporary simulation that measures the
    ground offset, and the factory [make_sim_fn]) only compose library
    calls; they are kept as the two functions [ground_offset] and
    [make_sim_fn]. *)

Class SimulationPort (Scalar : Type) `{GraphTypes} := {
  Robot : Type;
  Dyn : Type;
  buildRobot : Graph -> Robot;
  ground_offset : Robot -> Scalar;               (* y_offset = -lower(1) *)
  make_sim_fn : Robot -> Scalar -> Dyn;          (* floor and robot added *)
  findRobotIndex : Dyn -> Robot -> Z;
  getRobotDofCount : Dyn -> Z -> nat;           (* a count; int in C++ *)
  setJointTargetPositions : Z -> list Scalar -> Dyn -> Dyn;
  step : Dyn -> Dyn;
  objective_fn : Dyn -> Scalar;                  (* SumOfSquaresObjective *)
}.

(** Modelled from the spec: the bodies of [saveState] and [restoreState]
    are not part of the viewer's source.  Section 3 of the specification
    gives their contract: [saveState] captures the current dynamics state,
    a later [restoreState] returns exactly to the captured state and
    discards the steps in between, and one outstanding saved state is
    enough.  A restore with nothing saved is outside that contract; it is
    modelled as having no effect, and [main] never does it. *)
Record Simulation {Dyn : Type} := mkSimulation {
  sim_dyn : Dyn;
  sim_saved : option Dyn;
}.
Arguments Simulation : clear implicits.

Definition saveState {Dyn} (s : Simulation Dyn) : Simulation Dyn :=
  {| sim_dyn := sim_dyn s; sim_saved := Some (sim_dyn s) |}.

Definition restoreState {Dyn} (s : Simulation Dyn) : Simulation Dyn :=
  match sim_saved s with
  | Some d => {| sim_dyn := d; sim_saved := Some d |}
  | None => s
  end.

Definition on_dyn {Dyn} (f : Dyn -> Dyn) (s : Simulation Dyn)
  : Simulation Dyn :=
  {| sim_dyn := f (sim_dyn s); sim_saved := sim_saved s |}.

(** ** The value estimator (robot_design/optim.h)

    The estimator is a shared object: [train] changes it, and the
    optimizer reads it through its own pointer.  Its state is therefore
    passed to every call that reads it. *)

Class ValueEstimator (Scalar Dyn : Type) := {
  Estimator : Type;
  make_estimator : Estimator;          (* make_shared<NullValueEstimator>() *)
  getObservationSize : Estimator -> nat;
  getObservation : Estimator -> Dyn -> list Scalar;
  estimateValue : Estimator -> list Scalar -> Scalar;
  train : Estimator -> list (list Scalar) -> list Scalar -> Estimator;
}.

(** ** The optimizer (robot_design/optim.h) *)

Record OptimizerParams {Scalar : Type} := mkOptimizerParams {
  op_kappa : Scalar;
  op_discount_factor : Scalar;
  op_dof_count : nat;
  op_interval : nat;
  op_horizon : nat;
  op_sample_count : nat;
  op_thread_count : N;
  op_seed : N;
}.
Arguments OptimizerParams : clear implicits.

Class Optimizer (Scalar Estimator : Type) := {
  MPPIOptimizer : Type;
  new_optimizer : OptimizerParams Scalar -> MPPIOptimizer;
  update : Estimator -> MPPIOptimizer -> MPPIOptimizer;
  advance : nat -> MPPIOptimizer -> MPPIOptimizer;
  input_sequence_ : MPPIOptimizer -> list (list Scalar);  (* columns *)
}.

(** ** The random generator (std::mt19937) *)

Class RandomGenerator := {
  Generator : Type;
  mt19937 : N -> Generator;              (* seeding constructor *)
  generate : Generator -> N * Generator; (* operator() *)
}.

(** ** Machine integers *)

Definition wrap_int (z : Z) : Z :=
  (z + 2 ^ 31) mod 2 ^ 32 - 2 ^ 31.  (* conversion to a 32-bit int *)

(** ** Eigen block operations on a matrix kept as its list of columns, and
       on a vector kept as its list of entries *)

Section Eigen.
Context {A : Type}.

(* conservativeResize to [n] columns or entries: the old ones are kept,
   new ones hold whatever [fresh] is *)
Definition conservativeResize (n : nat) (fresh : A) (m : list A) : list A :=
  take n m ++ replicate (n - length m) fresh.

(* leftCols(n), head(n) *)
Definition leftCols (n : nat) (m : list A) : list A := take n m.

(* m.rightCols(n) = src, m.tail(n) = src *)
Definition assign_rightCols (n : nat) (src m : list A) : list A :=
  take (length m - n) m ++ take n src.
End Eigen.

(** ** Command line and environment *)

Record Config := mkConfig {
  graph_file : string;          (* positional, required *)
  rule_sequence : list N;       (* positional list of unsigned int *)
  seed : N;                     (* --seed *)
  jobs : N;                     (* --jobs, default 0 *)
  episodes : N;                 (* --episodes, default 3 *)
  optim : bool;                 (* --optim *)
  render : bool;                (* --render *)
  save_image : string;          (* --save_image *)
}.

(** What [parser.ParseCLI] does: it returns, or throws one of the four
    exceptions that [main] catches (the payload is [e.what()]). *)
Inductive ParseOutcome :=
  | Parsed (cfg : Config)
  | ThrowCompletion (what : string)
  | ThrowHelp
  | ThrowParseError (what : string)
  | ThrowRequiredError (what : string).

(** Everything [main] reads from outside the program. *)
Record Inputs := mkInputs {
  parse_cli : ParseOutcome;
  hardware_concurrency : N;     (* std::thread::hardware_concurrency() *)
  encode_error : N;             (* result of lodepng::encode *)
  frames : list nat;            (* per rendered frame of the viewer, how
                                   often the clock lets the inner loop run;
                                   the list ends when the viewer closes *)
}.

(** ** Constants of [main] *)

Definition interval : nat := 4.
Definition horizon : nat := 64.
Definition episode_len : nat := 250.
Definition warmup_updates : nat := 10.
Definition sample_count : nat := 128.

Section Viewer.
Context {Scalar : Type} `{SO : ScalarOps Scalar} `{MC : !MainConstants Scalar}.
Context `{GG : GraphGrammar}.
Context `{SP : !SimulationPort Scalar}.
Context `{VE : !ValueEstimator Scalar Dyn}.
Context `{OP : !Optimizer Scalar Estimator}.
Context `{RG : RandomGenerator}.

(** *** Events *)

Inductive Printed :=
  | Text (s : string)
  | Count (n : nat)
  | Int (z : Z)
  | Real (x : Scalar)
  | Usage                     (* operator<< of the argument parser *)
  | LodepngError (code : N).  (* lodepng_error_text(error) *)

Inductive Event :=
  | Cout (line : list Printed)
  | Cerr (line : list Printed)
  | LoadGraphs (file : string)
  | CreateRuleFromGraph (g : Graph)
  | FindMatches (pattern target : Graph)
  | ApplyRule (rule : Rule) (target : Graph) (m : GraphMapping)
  | BuildRobot (g : Graph)
  | TempSimulation                         (* lines 110-117 *)
  | MakeSim                                (* main's call of make_sim_fn *)
  | NewOptimizer (p : OptimizerParams Scalar)
  | Update
  | Advance (n : nat)
  | GetObservation (col : nat) (o : list Scalar)
  | SaveState
  | RestoreState
  (* [col] is the column of [input_sequence] the target is read from *)
  | SetJointTargetPositions (robot_idx : Z) (col : Z) (target : list Scalar)
  | Step
  | Objective (v : Scalar)
  | EstimateValue (o : list Scalar) (v : Scalar)
  | Train (observations : list (list Scalar)) (rets : list Scalar)
  | ViewerUpdate
  | ViewerRender
  | EncodePng (path : string).

Abbreviation Sim := (Simulation Dyn).
Abbreviation IO := (M Event).

(** *** Generating the robot graph (lines 84-98) *)

Definition seed_graph : Graph :=
  {| name_ := "robot";
     nodes_ := [ {| node_name := "robot";
                    node_attrs := mkNodeAttributes "robot" |} ];
     edges_ := [];
     subgraphs_ := [] |}.

(** One iteration of the loop over the rule sequence.  [rules !! i] is
    [Some] exactly when [i < rules.size()]. *)
Definition rewrite_step (rules : list Rule) (robot_graph : Graph)
    (rule_idx : N) : IO Graph :=
  match rules !! N.to_nat rule_idx with
  | Some rule =>
      let matches := findMatches (lhs_ rule) robot_graph in
      call emit (FindMatches (lhs_ rule) robot_graph);
      match matches with
      | m0 :: _ =>
          (* Use the first match *)
          call emit (ApplyRule rule robot_graph m0);
          ret (applyRule rule robot_graph m0)
      | [] => ret robot_graph
      end
  | None => ret robot_graph
  end.

Fixpoint apply_rule_sequence (rules : list Rule) (robot_graph : Graph)
    (sequence : list N) : IO Graph :=
  match sequence with
  | [] => ret robot_graph
  | rule_idx :: rest =>
      do g <- rewrite_step rules robot_graph rule_idx;
      apply_rule_sequence rules g rest
  end.

(** Converting graphs to rules (lines 78-82). *)
Fixpoint create_rules (rule_graphs : list Graph) : IO (list Rule) :=
  match rule_graphs with
  | [] => ret []
  | g :: rest =>
      call emit (CreateRuleFromGraph g);
      do rules <- create_rules rest;
      ret (createRuleFromGraph g :: rules)
  end.

(** *** Calls on the main simulation, the objective and the estimator *)

Definition sim_saveState (s : Sim) : IO Sim :=
  call emit SaveState; ret (saveState s).

Definition sim_restoreState (s : Sim) : IO Sim :=
  call emit RestoreState; ret (restoreState s).

Definition sim_setJointTargetPositions (robot_idx : Z) (col : Z)
    (target : list Scalar) (s : Sim) : IO Sim :=
  call emit (SetJointTargetPositions robot_idx col target);
  ret (on_dyn (setJointTargetPositions robot_idx target) s).

Definition sim_step (s : Sim) : IO Sim :=
  call emit Step; ret (on_dyn step s).

Definition eval_objective (s : Sim) : IO Scalar :=
  let v := objective_fn (sim_dyn s) in
  call emit (Objective v); ret v.

Definition observe (ve : Estimator) (s : Sim) (col : nat)
  : IO (list Scalar) :=
  let o := getObservation ve (sim_dyn s) in
  call emit (GetObservation col o); ret o.

(** *** One episode (lines 156-202) *)

(** What the lockstep loop (lines 173-185) reads and writes. *)
Record Lockstep := mkLockstep {
  ls_optimizer : MPPIOptimizer;
  ls_sim : Sim;
  ls_input_sequence : list (list Scalar);
  ls_obs : list (list Scalar);
  ls_rewards : list Scalar;
}.

(** Lines 181-183, the body of the inner loop over [i]. *)
Definition physics_step (robot_idx : Z) (j : nat) (i : nat) (st : Lockstep)
  : IO Lockstep :=
  do sim <- sim_setJointTargetPositions robot_idx (Z.of_nat j)
              (ls_input_sequence st !!! j) (ls_sim st);
  do sim <- sim_step sim;
  do v <- eval_objective sim;
  ret {| ls_optimizer := ls_optimizer st;
         ls_sim := sim;
         ls_input_sequence := ls_input_sequence st;
         ls_obs := ls_obs st;
         ls_rewards := <[j := s_add (ls_rewards st !!! j) v]> (ls_rewards st) |}.

(** Lines 174-184, the body of the loop over [j]. *)
Definition control_step (ve : Estimator) (robot_idx : Z) (j : nat)
    (st : Lockstep) : IO Lockstep :=
  call emit Update;
  let optimizer := update ve (ls_optimizer st) in
  let input_sequence := <[j := input_sequence_ optimizer !!! 0%nat]>
                          (ls_input_sequence st) in
  call emit (Advance 1);
  let optimizer := advance 1 optimizer in
  do o <- observe ve (ls_sim st) j;
  let obs := <[j := o]> (ls_obs st) in
  let rewards := <[j := s_zero]> (ls_rewards st) in
  for_loop interval 0 (physics_step robot_idx j)
    {| ls_optimizer := optimizer;
       ls_sim := ls_sim st;
       ls_input_sequence := input_sequence;
       ls_obs := obs;
       ls_rewards := rewards |}.

(** Lines 191-193: [for (j = n - 1; j >= 0; --j)]. *)
Fixpoint returns_loop (n : nat) (rewards returns : list Scalar)
  : list Scalar :=
  match n with
  | O => returns
  | S j =>
      returns_loop j rewards
        (<[j := s_add (rewards !!! j)
                      (s_mul discount_factor (returns !!! S j))]> returns)
  end.

(** The variables of [main] that live across episodes (lines 136-153). *)
Record Vars := mkVars {
  main_sim : Sim;
  value_estimator : Estimator;
  generator : Generator;
  input_sequence : list (list Scalar);
  obs : list (list Scalar);
  rewards : list Scalar;
  returns : list Scalar;
  replay_obs : list (list Scalar);
  replay_returns : list Scalar;
}.

Definition optimizer_params (dof_count : nat) (thread_count opt_seed : N)
  : OptimizerParams Scalar :=
  {| op_kappa := kappa;
     op_discount_factor := discount_factor;
     op_dof_count := dof_count;
     op_interval := interval;
     op_horizon := horizon;
     op_sample_count := sample_count;
     op_thread_count := thread_count;
     op_seed := opt_seed |}.

(** Lines 167-169. *)
Definition warmup_step (ve : Estimator) (i : nat) (optimizer : MPPIOptimizer)
  : IO MPPIOptimizer :=
  call emit Update; ret (update ve optimizer).

(** Lines 167-169, on the optimizer just constructed. *)
Definition warmup (ve : Estimator) (params : OptimizerParams Scalar)
  : IO MPPIOptimizer :=
  for_loop warmup_updates 0 (warmup_step ve) (new_optimizer params).

(** Lines 173-185, the loop over the columns of [input_sequence]. *)
Definition lockstep (ve : Estimator) (robot_idx : Z)
    (optimizer : MPPIOptimizer) (sim : Sim) (v : Vars) : IO Lockstep :=
  for_loop (length (input_sequence v)) 0 (control_step ve robot_idx)
    {| ls_optimizer := optimizer;
       ls_sim := sim;
       ls_input_sequence := input_sequence v;
       ls_obs := obs v;
       ls_rewards := rewards v |}.

(** The body of the loop over [episode_idx]. *)
Definition episode (robot_idx : Z) (dof_count obs_size : nat)
    (thread_count : N) (episode_idx : nat) (v : Vars) : IO Vars :=
  let ve := value_estimator v in
  call emit (Cout [Text "Episode "; Int (Z.of_nat episode_idx)]);
  let '(opt_seed, generator') := generate (generator v) in
  let params := optimizer_params dof_count thread_count opt_seed in
  call emit (NewOptimizer params);
  do optimizer <- warmup ve params;
  (* Run the main simulation in lockstep with the optimizer's simulations *)
  do sim <- sim_saveState (main_sim v);
  do ls <- lockstep ve robot_idx optimizer sim v;
  do o <- observe ve (ls_sim ls) episode_len;
  let obs' := <[episode_len := o]> (ls_obs ls) in
  do sim' <- sim_restoreState (ls_sim ls);
  (* Bootstrap returns with value estimator *)
  let bootstrap := estimateValue ve (obs' !!! episode_len) in
  call emit (EstimateValue (obs' !!! episode_len) bootstrap);
  let returns' :=
    returns_loop episode_len (ls_rewards ls)
      (<[(length (returns v) - 1)%nat := bootstrap]> (returns v)) in
  let replay_obs' :=
    assign_rightCols episode_len (leftCols episode_len obs')
      (conservativeResize (length (replay_obs v) + episode_len)
         (replicate obs_size indeterminate) (replay_obs v)) in
  let replay_returns' :=
    assign_rightCols episode_len (leftCols episode_len returns')
      (conservativeResize (length (replay_returns v) + episode_len)
         indeterminate (replay_returns v)) in
  call emit (Train replay_obs' replay_returns');
  call emit (Cout [Text "Total reward: "; Real (s_sum (ls_rewards ls))]);
  ret {| main_sim := sim';
         value_estimator := train ve replay_obs' replay_returns';
         generator := generator';
         input_sequence := ls_input_sequence ls;
         obs := obs';
         rewards := ls_rewards ls;
         returns := returns';
         replay_obs := replay_obs';
         replay_returns := replay_returns' |}.

(** Lines 155-203. *)
Definition optimize (cfg : Config) (robot_idx : Z) (dof_count obs_size : nat)
    (thread_count : N) (v : Vars) : IO Vars :=
  if optim cfg then
    let episode_count := wrap_int (Z.of_N (episodes cfg)) in
    for_loop (Z.to_nat episode_count) 0
      (episode robot_idx dof_count obs_size thread_count) v
  else ret v.

(** *** Saving a snapshot (lines 207-228); the pixel buffers are opaque *)

Definition save_snapshot (path : string) (error : N) : IO unit :=
  if decide (path = "") then ret tt
  else
    call emit ViewerUpdate;
    call emit ViewerRender;
    call emit (EncodePng path);
    if (error =? 0)%N then ret tt
    else call emit (Cerr [Text "Failed to save image: "; LodepngError error]);
         ret tt.

(** *** Viewing the trajectory (lines 230-255) *)

Record Replay := mkReplay {
  rp_i : Z;
  rp_j : Z;
  rp_sim : Sim;
}.

(** [m.col(j)]; Eigen gives no meaning to an index outside the matrix. *)
Definition col (j : Z) (m : list (list Scalar)) : option (list Scalar) :=
  if decide (0 <= j < Z.of_nat (length m)) then m !! Z.to_nat j else None.

(** Lines 238-251, the body of the inner [while]; [None] stands for an
    access outside [input_sequence]. *)
Definition render_substep (robot_idx : Z) (input_sequence : list (list Scalar))
    (st : Replay) : IO (option Replay) :=
  match col (rp_j st) input_sequence with
  | None => ret None
  | Some target =>
      do sim <- sim_setJointTargetPositions robot_idx (rp_j st) target
                  (rp_sim st);
      do sim <- sim_step sim;
      call emit ViewerUpdate;
      let i := wrap_int (rp_i st + 1) in
      let '(i, j) := if decide (Z.of_nat interval <= i)
                     then (0, wrap_int (rp_j st + 1))
                     else (i, rp_j st) in
      if decide (Z.of_nat (length input_sequence) <= j)
      then do sim <- sim_restoreState sim;
           ret (Some {| rp_i := 0; rp_j := 0; rp_sim := sim |})
      else ret (Some {| rp_i := i; rp_j := j; rp_sim := sim |})
  end.

(** The inner [while] runs as often as the clock allows: [n] times. *)
Fixpoint render_substeps (n : nat) (robot_idx : Z)
    (input_sequence : list (list Scalar)) (st : Replay)
  : IO (option Replay) :=
  match n with
  | O => ret (Some st)
  | S n' =>
      do r <- render_substep robot_idx input_sequence st;
      match r with
      | Some st' => render_substeps n' robot_idx input_sequence st'
      | None => ret None
      end
  end.

(** The outer [while], one round per frame until the viewer closes. *)
Fixpoint render_frames (frames : list nat) (robot_idx : Z)
    (input_sequence : list (list Scalar)) (st : Replay)
  : IO (option Replay) :=
  match frames with
  | [] => ret (Some st)
  | n :: rest =>
      do r <- render_substeps n robot_idx input_sequence st;
      match r with
      | Some st' =>
          call emit ViewerRender;
          render_frames rest robot_idx input_sequence st'
      | None => ret None
      end
  end.

(** *** The program *)

Record Final := mkFinal {
  fin_robot_graph : Graph;
  fin_vars : Vars;                 (* the variables when [main] returns *)
  fin_replay : option Replay;      (* the viewer's counters, if it ran *)
}.

Inductive Outcome :=
  | Exited (code : Z) (state : option Final)
  | OutOfBounds.                   (* a column access outside the matrix *)

(** Lines 139-143. *)
Definition thread_count_of (jobs hw : N) : N :=
  if (jobs =? 0)%N then N.max hw 1 else jobs.

(** Lines 146-153. *)
Definition initial_vars (sim : Sim) (ve : Estimator) (gen : Generator)
    (dof_count : nat) : Vars :=
  {| main_sim := sim;
     value_estimator := ve;
     generator := gen;
     input_sequence := replicate episode_len (replicate dof_count s_zero);
     obs := replicate (episode_len + 1)
              (replicate (getObservationSize ve) indeterminate);
     rewards := replicate episode_len indeterminate;
     returns := replicate (episode_len + 1) indeterminate;
     replay_obs := [];
     replay_returns := [] |}.

Definition with_main_sim (sim : Sim) (v : Vars) : Vars :=
  {| main_sim := sim;
     value_estimator := value_estimator v;
     generator := generator v;
     input_sequence := input_sequence v;
     obs := obs v;
     rewards := rewards v;
     returns := returns v;
     replay_obs := replay_obs v;
     replay_returns := replay_returns v |}.

(** Lines 63-255, after the command line has been parsed. *)
Definition run (cfg : Config) (inp : Inputs) : IO Outcome :=
  (* Use the provided random seed to generate all other seeds *)
  let gen := mt19937 (seed cfg) in
  (* Load rule graphs *)
  call emit (LoadGraphs (graph_file cfg));
  let rule_graphs := loadGraphs (graph_file cfg) in
  match rule_graphs with
  | [] =>
      call emit (Cerr [Text "Graph file does not contain any graphs"]);
      ret (Exited 1 None)
  | _ :: _ =>
      call emit (Cout [Text "Number of graphs: "; Count (length rule_graphs)]);
      (* Convert graphs to rules *)
      do rules <- create_rules rule_graphs;
      (* Generate a robot graph *)
      do robot_graph <- apply_rule_sequence rules seed_graph
                          (rule_sequence cfg);
      call emit (BuildRobot robot_graph);
      let robot := buildRobot robot_graph in
      call emit TempSimulation;
      let y_offset := ground_offset robot in
      (* Create the "main" simulation *)
      call emit MakeSim;
      let sim0 := {| sim_dyn := make_sim_fn robot y_offset;
                     sim_saved := None |} in
      let robot_idx := findRobotIndex (sim_dyn sim0) robot in
      let dof_count := getRobotDofCount (sim_dyn sim0) robot_idx in
      let thread_count :=
        thread_count_of (jobs cfg) (hardware_concurrency inp) in
      let ve := make_estimator in
      do vars <- optimize cfg robot_idx dof_count (getObservationSize ve)
                   thread_count (initial_vars sim0 ve gen dof_count);
      do sim <- sim_saveState (main_sim vars);
      call save_snapshot (save_image cfg) (encode_error inp);
      if render cfg then
        (* View the trajectory *)
        do r <- render_frames (frames inp) robot_idx (input_sequence vars)
                  {| rp_i := 0; rp_j := 0; rp_sim := sim |};
        match r with
        | Some st =>
            ret (Exited 0 (Some {| fin_robot_graph := robot_graph;
                                   fin_vars := with_main_sim (rp_sim st) vars;
                                   fin_replay := Some st |}))
        | None => ret OutOfBounds
        end
      else
        ret (Exited 0 (Some {| fin_robot_graph := robot_graph;
                               fin_vars := with_main_sim sim vars;
                               fin_replay := None |}))
  end.

(** Lines 21-61 followed by the rest of [main]. *)
Definition main (inp : Inputs) : IO Outcome :=
  match parse_cli inp with
  | Parsed cfg => run cfg inp
  | ThrowCompletion what =>
      call emit (Cout [Text what]); ret (Exited 0 None)
  | ThrowHelp =>
      call emit (Cout [Usage]); ret (Exited 0 None)
  | ThrowParseError what | ThrowRequiredError what =>
      call emit (Cerr [Text what]); call emit (Cerr [Usage]);
      ret (Exited 1 None)
  end.

End Viewer.

(** ** Flipping the snapshot (lines 213-221)

    The viewer renders into [rgba], a buffer of [4 * fb_width * fb_height]
    bytes, and [main] copies it row by row, bottom row first, into
    [rgba_flipped], a second buffer of that size that starts out with
    indeterminate content.  Buffers are lists of bytes; a copy that
    leaves one of its buffers has no meaning in C++ and is [None] here.
    The [int] products of the source are written with their wrap-around. *)

Definition int_mul (a b : Z) : Z := wrap_int (a * b).
Definition int_sub (a b : Z) : Z := wrap_int (a - b).

(** [std::memcpy(dst + dst_off, src + src_off, n)]; the count is a
    [size_t], so a negative [int] is out of range as well. *)
Definition memcpy (dst : list Byte.byte) (dst_off : Z)
    (src : list Byte.byte) (src_off : Z) (n : Z) : option (list Byte.byte) :=
  if decide (0 <= dst_off /\ 0 <= src_off /\ 0 <= n /\
             dst_off + n <= Z.of_nat (length dst) /\
             src_off + n <= Z.of_nat (length src))
  then Some (take (Z.to_nat dst_off) dst
               ++ take (Z.to_nat n) (drop (Z.to_nat src_off) src)
               ++ drop (Z.to_nat (dst_off + n)) dst)
  else None.

(** Lines 219-220, the body of the loop over [i]. *)
Definition flip_row (fb_width fb_height : Z) (rgba : list Byte.byte)
    (i : Z) (rgba_flipped : list Byte.byte) : option (list Byte.byte) :=
  memcpy rgba_flipped (int_mul (int_mul i fb_width) 4)
    rgba (int_mul (int_mul (int_sub (int_sub fb_height i) 1) fb_width) 4)
    (int_mul fb_width 4).

(** [n] rounds of the loop from round [i] on. *)
Fixpoint flip_rows_from (n : nat) (i : Z) (fb_width fb_height : Z)
    (rgba rgba_flipped : list Byte.byte) : option (list Byte.byte) :=
  match n with
  | O => Some rgba_flipped
  | S n' =>
      match flip_row fb_width fb_height rgba i rgba_flipped with
      | Some flipped =>
          flip_rows_from n' (wrap_int (i + 1)) fb_width fb_height rgba flipped
      | None => None
      end
  end.

(** Lines 218-221: [for (int i = 0; i < fb_height; ++i)]. *)
Definition flip_rows (fb_width fb_height : Z)
    (rgba rgba_flipped : list Byte.byte) : option (list Byte.byte) :=
  flip_rows_from (Z.to_nat fb_height) 0 fb_width fb_height rgba rgba_flipped.

(** The size of both buffers (lines 213-217). *)
Definition framebuffer_bytes (fb_width fb_height : Z) : Z :=
  int_mul (int_mul 4 fb_width) fb_height.

(** ** Vocabulary of the properties *)

Section Vocabulary.
Context {Scalar : Type} `{SO : ScalarOps Scalar} `{MC : !MainConstants Scalar}.
Context `{GG : GraphGrammar}.
Context `{SP : !SimulationPort Scalar}.
Context `{VE : !ValueEstimator Scalar Dyn}.
Context `{OP : !Optimizer Scalar Estimator}.
Context `{RG : RandomGenerator}.

Abbreviation Event' := (Event (Scalar:=Scalar)).

(** The states a simulation goes through in [n] steps while one joint
    target is held: each is the step of the previous one with the target
    set. *)
Fixpoint held_states (n : nat) (robot_idx : Z) (target : list Scalar)
    (d : Dyn) : list Dyn :=
  match n with
  | O => []
  | S n' =>
      let d' := step (setJointTargetPositions robot_idx target d) in
      d' :: held_states n' robot_idx target d'
  end.

(** The events of one physics step that ends in state [d]. *)
Definition physics_events (robot_idx : Z) (j : nat) (target : list Scalar)
    (d : Dyn) : list Event' :=
  [SetJointTargetPositions robot_idx (Z.of_nat j) target; Step;
   Objective (objective_fn d)].

(** Kinds of events. *)
Definition is_checkpoint (e : Event') : bool :=
  match e with SaveState | RestoreState => true | _ => false end.

Definition touches_sim (e : Event') : bool :=
  match e with
  | SaveState | RestoreState | SetJointTargetPositions _ _ _ | Step => true
  | _ => false
  end.

Definition is_train (e : Event') : bool :=
  match e with Train _ _ => true | _ => false end.

(** The events of the lockstep loop. *)
Definition lockstep_event (e : Event') : bool :=
  match e with
  | Update | Advance _ | GetObservation _ _
  | SetJointTargetPositions _ _ _ | Step | Objective _ => true
  | _ => false
  end.

(** What the lockstep loop keeps: the sizes of the three containers it
    writes and the saved state of the simulation.  Its events are those
    of the optimizer, the observation and the physics steps. *)
Definition lockstep_kept (a b c : nat) (saved : option Dyn) (st : Lockstep)
  : Prop :=
  length (ls_input_sequence st) = a /\ length (ls_obs st) = b /\
  length (ls_rewards st) = c /\ sim_saved (ls_sim st) = saved.

(** The sizes that [main] gives its matrices and vectors. *)
Definition vars_sized (v : Vars) : Prop :=
  length (input_sequence v) = episode_len /\
  length (obs v) = (episode_len + 1)%nat /\
  length (rewards v) = episode_len /\
  length (returns v) = (episode_len + 1)%nat.

(** The variables after the first [k] episodes. *)
Definition after_episodes (robot_idx : Z) (dof_count obs_size : nat)
    (thread_count : N) (v : Vars) (k : nat) : Vars :=
  value (for_loop k 0 (episode robot_idx dof_count obs_size thread_count) v).

(** In a trace, every [restoreState] comes after every evaluation of the
    value estimator. *)
Definition restored_after_bootstrap (t : list Event') : Prop :=
  forall i k o b,
    t !! i = Some RestoreState -> t !! k = Some (EstimateValue o b) ->
    (k < i)%nat.

(** What holds of the viewer's counters and simulation every time the
    inner loop is entered: both counters are in range, and the saved state
    of the simulation is [d]. *)
Definition replay_inv (m : list (list Scalar)) (d : Dyn) (st : Replay)
  : Prop :=
  0 <= rp_i st < Z.of_nat interval /\
  0 <= rp_j st < Z.of_nat (length m) /\
  sim_saved (rp_sim st) = Some d.

(** A joint target that is set is a column of [m] at an index inside it. *)
Definition target_in_bounds (m : list (list Scalar)) (e : Event') : Prop :=
  match e with
  | SetJointTargetPositions _ j target =>
      0 <= j < Z.of_nat (length m) /\ m !! Z.to_nat j = Some target
  | _ => True
  end.

(** The joint targets set in a trace. *)
Definition targets_of (t : list Event') : list (list Scalar) :=
  omap (fun e => match e with
                 | SetJointTargetPositions _ _ target => Some target
                 | _ => None
                 end) t.

(** The rules, the robot graph and the main simulation that [main]
    derives from its command line. *)
Definition rules_of (cfg : Config) : list Rule :=
  map createRuleFromGraph (loadGraphs (graph_file cfg)).

Definition robot_graph_of (cfg : Config) : Graph :=
  value (apply_rule_sequence (Scalar:=Scalar) (rules_of cfg) seed_graph
           (rule_sequence cfg)).

Definition initial_dyn (cfg : Config) : Dyn :=
  let robot := buildRobot (robot_graph_of cfg) in
  make_sim_fn robot (ground_offset robot).

Definition robot_idx_of (cfg : Config) : Z :=
  findRobotIndex (initial_dyn cfg) (buildRobot (robot_graph_of cfg)).

Definition dof_count_of (cfg : Config) : nat :=
  getRobotDofCount (initial_dyn cfg) (robot_idx_of cfg).

(** The variables of [main] before the episodes, and after them. *)
Definition vars_before (cfg : Config) : Vars :=
  initial_vars {| sim_dyn := initial_dyn cfg; sim_saved := None |}
    make_estimator (mt19937 (seed cfg)) (dof_count_of cfg).

Definition optimization (cfg : Config) (inp : Inputs) : M Event' Vars :=
  optimize cfg (robot_idx_of cfg) (dof_count_of cfg)
    (getObservationSize make_estimator)
    (thread_count_of (jobs cfg) (hardware_concurrency inp))
    (vars_before cfg).

(** The robot graph that a run ended with, if it got that far. *)
Definition built_graph (o : Outcome) : option Graph :=
  match o with
  | Exited _ (Some f) => Some (fin_robot_graph f)
  | _ => None
  end.

(** *** Further vocabulary: counting and reading traces *)

(** How many events of a kind a trace has. *)
Definition count_events (kind : Event' -> bool) (t : list Event') : nat :=
  length (List.filter kind t).

Definition is_step (e : Event') : bool :=
  match e with Step => true | _ => false end.

Definition is_update (e : Event') : bool :=
  match e with Update => true | _ => false end.

Definition is_set_target (e : Event') : bool :=
  match e with SetJointTargetPositions _ _ _ => true | _ => false end.

Definition is_observation (e : Event') : bool :=
  match e with GetObservation _ _ => true | _ => false end.

Definition is_save (e : Event') : bool :=
  match e with SaveState => true | _ => false end.

Definition is_restore (e : Event') : bool :=
  match e with RestoreState => true | _ => false end.

(** The rule applications of a trace. *)
Definition applications (t : list Event')
  : list (Rule * Graph * GraphMapping) :=
  omap (fun e => match e with
                 | ApplyRule rule target m => Some (rule, target, m)
                 | _ => None
                 end) t.

(** The optimizers constructed in a trace, by their parameters. *)
Definition new_optimizers (t : list Event')
  : list (OptimizerParams Scalar) :=
  omap (fun e => match e with NewOptimizer p => Some p | _ => None end) t.

(** The snapshots encoded in a trace, by their paths. *)
Definition encoded (t : list Event') : list string :=
  omap (fun e => match e with EncodePng path => Some path | _ => None end) t.

(** The first [n] numbers that a generator produces. *)
Fixpoint draws (n : nat) (g : Generator) : list N :=
  match n with
  | O => []
  | S n' => (generate g).1 :: draws n' (generate g).2
  end.

(** The number of episodes that [main] runs. *)
Definition episode_count_of (cfg : Config) : nat :=
  if optim cfg then Z.to_nat (wrap_int (Z.of_N (episodes cfg))) else O.

(** The exit code by the command line and the graph file alone. *)
Definition exit_code_of (inp : Inputs) : Z :=
  match parse_cli inp with
  | Parsed cfg =>
      match loadGraphs (graph_file cfg) with [] => 1 | _ :: _ => 0 end
  | ThrowCompletion _ | ThrowHelp => 0
  | ThrowParseError _ | ThrowRequiredError _ => 1
  end.

(** A simulation state after one joint target was held for [interval]
    steps, and after the columns of a plan were held one after the other. *)
Definition hold (robot_idx : Z) (d : Dyn) (target : list Scalar) : Dyn :=
  List.last (held_states interval robot_idx target d) d.

Definition play (robot_idx : Z) (m : list (list Scalar)) (d : Dyn) : Dyn :=
  fold_left (hold robot_idx) m d.

(** The state after [n] steps of replaying a plan: the columns before
    column [n / interval] are done, and that column is [n mod interval]
    steps in. *)
Definition play_steps (robot_idx : Z) (m : list (list Scalar)) (n : nat)
    (d : Dyn) : Dyn :=
  let start := play robot_idx (take (n / interval) m) d in
  List.last
    (held_states (n mod interval) robot_idx (m !!! (n / interval)%nat) start)
    start.

(** The reward of a control step that starts in state [d]. *)
Definition step_reward (robot_idx : Z) (target : list Scalar) (d : Dyn)
  : Scalar :=
  fold_left s_add
    (map objective_fn (held_states interval robot_idx target d)) s_zero.

(** The discounted sum of rewards, closed by a bootstrap value. *)
Definition discounted (rewards : list Scalar) (bootstrap : Scalar) : Scalar :=
  foldr (fun r acc => s_add r (s_mul discount_factor acc)) bootstrap rewards.

(** Events whose column index, if they have one, is inside a matrix of
    [cols] columns. *)
Definition column_in_range (cols : nat) (e : Event') : Prop :=
  match e with
  | SetJointTargetPositions _ j _ => 0 <= j < Z.of_nat cols
  | _ => True
  end.

(** The events of the viewer's loop. *)
Definition viewer_event (e : Event') : bool :=
  match e with
  | SetJointTargetPositions _ _ _ | Step | ViewerUpdate | ViewerRender
  | RestoreState => true
  | _ => false
  end.

(** The events of an episode. *)
Definition episode_event (e : Event') : bool :=
  match e with
  | Cout _ | NewOptimizer _ | SaveState | RestoreState | EstimateValue _ _
  | Train _ _ => true
  | _ => lockstep_event e
  end.

(** The events of the graph loading and rewriting. *)
Definition grammar_event (e : Event') : bool :=
  match e with
  | LoadGraphs _ | Cout _ | CreateRuleFromGraph _ | FindMatches _ _
  | ApplyRule _ _ _ | BuildRobot _ | TempSimulation | MakeSim => true
  | _ => false
  end.

(** What holds when the lockstep loop enters round [j]: the simulation is
    where the first [j] columns of the plan take it, and the observations
    and rewards of the rounds before are those of that trajectory. *)
Definition recorded (ve : Estimator) (robot_idx : Z) (d0 : Dyn)
    (cols rows : nat) (j : nat) (st : Lockstep) : Prop :=
  length (ls_input_sequence st) = cols /\
  length (ls_obs st) = rows /\
  length (ls_rewards st) = cols /\
  sim_dyn (ls_sim st) = play robot_idx (take j (ls_input_sequence st)) d0 /\
  forall t, (t < j)%nat ->
    let before := play robot_idx (take t (ls_input_sequence st)) d0 in
    ls_obs st !! t = Some (getObservation ve before) /\
    ls_rewards st !! t =
      Some (step_reward robot_idx (ls_input_sequence st !!! t) before).

(** The errors reported in a trace. *)
Definition reported (t : list Event') : list (list Printed) :=
  omap (fun e => match e with Cerr line => Some line | _ => None end) t.

(** The kinds of events of a whole run. *)
Definition run_event (e : Event') : bool :=
  grammar_event e || episode_event e || viewer_event e.

Definition is_render (e : Event') : bool :=
  match e with ViewerRender => true | _ => false end.

(** A trace without the frames that were rendered. *)
Definition without_frames (t : list Event') : list Event' :=
  List.filter (fun e => negb (is_render e)) t.

(** The viewer's state when it has both counters at zero. *)
Definition replay_start (sim : Simulation Dyn) : Replay :=
  {| rp_i := 0; rp_j := 0; rp_sim := sim |}.

(** The optimizer after the warm-up, after [j] rounds of the lockstep
    loop, and the action it commits in round [j]. *)
Definition warmed (ve : Estimator) (params : OptimizerParams Scalar)
  : MPPIOptimizer :=
  Nat.iter warmup_updates (update ve) (new_optimizer params).

Definition round_optimizer (ve : Estimator) (optimizer : MPPIOptimizer)
    (j : nat) : MPPIOptimizer :=
  Nat.iter j (fun o => advance 1 (update ve o)) optimizer.

Definition planned (ve : Estimator) (optimizer : MPPIOptimizer) (j : nat)
  : list Scalar :=
  input_sequence_ (update ve (round_optimizer ve optimizer j)) !!! 0%nat.

(** What holds of the plan when the lockstep loop enters round [j]. *)
Definition plan_so_far (ve : Estimator) (optimizer : MPPIOptimizer)
    (cols j : nat) (st : Lockstep) : Prop :=
  length (ls_input_sequence st) = cols /\
  length (ls_rewards st) = cols /\
  ls_optimizer st = round_optimizer ve optimizer j /\
  take j (ls_input_sequence st) = map (planned ve optimizer) (seq 0 j).

(** Reading a trace for saves and restores: [Some saved] when no state
    was restored before one was saved, where [saved] tells whether one is
    saved at the end; [None] otherwise. *)
Fixpoint checkpoint_scan (saved : bool) (t : list Event') : option bool :=
  match t with
  | [] => Some saved
  | SaveState :: t' => checkpoint_scan true t'
  | RestoreState :: t' => if saved then checkpoint_scan saved t' else None
  | _ :: t' => checkpoint_scan saved t'
  end.

(** What holds of the flipped buffer when the loop enters round [i]: it
    has its size, and its first [i] rows are the last [i] rows of the
    rendered buffer, in reverse order. *)
Definition flipped_so_far (row rows : nat) (rgba : list Byte.byte) (i : nat)
    (flipped : list Byte.byte) : Prop :=
  length flipped = (rows * row)%nat /\
  forall r k, (r < i)%nat -> (k < row)%nat ->
    flipped !! (r * row + k)%nat = rgba !! ((rows - 1 - r) * row + k)%nat.

(** The rewrite in the words of section 4.1 of the specification, to be
    compared with [apply_rule_sequence]: an index out of bounds for the
    rules is skipped; a rule whose pattern has no match in the current
    graph is skipped; otherwise the current graph is replaced by the rule
    applied at the first match. *)
Definition spec_rewrite (rules : list Rule) (current : Graph) (index : N)
  : Graph :=
  match rules !! N.to_nat index with
  | None => current
  | Some rule =>
      match findMatches (lhs_ rule) current with
      | [] => current
      | first :: _ => applyRule rule current first
      end
  end.

Definition spec_applyRuleSequence (seedGraph : Graph) (rules : list Rule)
    (ruleIndexSequence : list N) : Graph :=
  foldl (spec_rewrite rules) seedGraph ruleIndexSequence.

(** Every physics step of a trace comes right after a joint target was
    set: the event before it is a [SetJointTargetPositions]. *)
Definition target_before_step (t : list Event') : Prop :=
  forall n, t !! n = Some Step ->
    exists k robot_idx j target,
      n = S k /\ t !! k = Some (SetJointTargetPositions robot_idx j target).

End Vocabulary.

Arguments robot_graph_of Scalar {_ _} cfg.

(** ** A small instance on which [main] runs

    Scalars are binary64 floats.  A rule graph lists the node to look for
    first and the nodes that replace it after; a match is the position of
    a node of that name.  The simulation is a point that moves by its
    first joint target at every step, the objective is its position, the
    estimator is the null estimator, and the plan of the optimizer grows
    by one at every update. *)

Module Demo.

#[export] Instance float_ops : ScalarOps float :=
  {| s_zero := 0%float;
     s_add := PrimFloat.add;
     s_mul := PrimFloat.mul;
     s_sum := fun l => fold_left PrimFloat.add l 0%float |}.

#[export] Instance constants : MainConstants float :=
  {| discount_factor := 0x1.fae147ae147aep-1%float;   (* 0.99 *)
     kappa := 100%float;
     indeterminate := nan |}.

#[export] Instance graph_types : GraphTypes :=
  {| NodeAttributes := string;
     Edge := (nat * nat)%type;
     Subgraph := unit;
     mkNodeAttributes := fun label => label |}.

Definition graph_of (nodes : list Node) : Graph :=
  {| name_ := "g"; nodes_ := nodes; edges_ := []; subgraphs_ := [] |}.

Definition node (label : string) : Node :=
  {| node_name := label; node_attrs := label |}.

Record DemoRule := mkDemoRule {
  rule_lhs : Graph;
  rule_rhs : list Node;
}.

Fixpoint positions (label : string) (i : nat) (nodes : list Node)
  : list nat :=
  match nodes with
  | [] => []
  | n :: rest =>
      if String.eqb (node_name n) label
      then i :: positions label (S i) rest
      else positions label (S i) rest
  end.

#[export] Instance grammar : GraphGrammar :=
  {| Rule := DemoRule;
     GraphMapping := nat;
     lhs_ := rule_lhs;
     loadGraphs := fun file =>
       if String.eqb file "rules.dot"
       then [ graph_of [node "limb"; node "limb"; node "joint"];
              graph_of [node "robot"; node "body"; node "limb"];
              graph_of [node "body"; node "body"; node "body"] ]
       else [];
     createRuleFromGraph := fun g =>
       {| rule_lhs := graph_of (take 1 (nodes_ g));
          rule_rhs := drop 1 (nodes_ g) |};
     findMatches := fun pattern target =>
       match nodes_ pattern with
       | n :: _ => positions (node_name n) 0 (nodes_ target)
       | [] => []
       end;
     applyRule := fun rule target m =>
       {| name_ := name_ target;
          nodes_ := take m (nodes_ target) ++ rule_rhs rule
                      ++ drop (S m) (nodes_ target);
          edges_ := edges_ target;
          subgraphs_ := subgraphs_ target |} |}.

#[export] Instance simulation : SimulationPort float :=
  {| Robot := nat;
     Dyn := (float * list float)%type;
     buildRobot := fun g => length (nodes_ g);
     ground_offset := fun _ => 1%float;
     make_sim_fn := fun robot y_offset => (y_offset, replicate robot 0%float);
     findRobotIndex := fun _ _ => 0;
     getRobotDofCount := fun d _ => length d.2;
     setJointTargetPositions := fun _ target d => (d.1, target);
     step := fun d => (PrimFloat.add d.1 (default 0%float (head d.2)), d.2);
     objective_fn := fun d => d.1 |}.

(** Modelled from the spec: the null estimator, which section 4.4 of the
    specification describes as always returning zero and ignoring
    [train]; its source is not part of the viewer. *)
#[export] Instance null_estimator : ValueEstimator float (float * list float) :=
  {| Estimator := unit;
     make_estimator := tt;
     getObservationSize := fun _ => 0%nat;
     getObservation := fun _ _ => [];
     estimateValue := fun _ _ => 0%float;
     train := fun ve _ _ => ve |}.

#[export] Instance optimizer : Optimizer float unit :=
  {| MPPIOptimizer := list (list float);
     new_optimizer := fun p =>
       replicate (op_horizon p) (replicate (op_dof_count p) 0%float);
     update := fun _ plan => map (map (PrimFloat.add 1%float)) plan;
     advance := fun n plan =>
       drop n plan ++ replicate n (List.last plan []);
     input_sequence_ := fun plan => plan |}.

#[export] Instance lcg : RandomGenerator :=
  {| Generator := N;
     mt19937 := fun s => s;
     generate := fun g =>
       (g, ((1103515245 * g + 12345) mod 2 ^ 32)%N) |}.

(** Another discount, for a run of the recursion by hand. *)
Definition half_discount : MainConstants float :=
  {| discount_factor := 0.5%float;
     kappa := 100%float;
     indeterminate := nan |}.

Definition config : Config :=
  {| graph_file := "rules.dot";
     rule_sequence := [1; 0; 5]%N;
     seed := 7;
     jobs := 0;
     episodes := 2;
     optim := true;
     render := true;
     save_image := "" |}.

Definition inputs (cfg : Config) : Inputs :=
  {| parse_cli := Parsed cfg;
     hardware_concurrency := 8;
     encode_error := 0;
     frames := [3; 1000; 5]%nat |}.

(** The same command line without [--optim] and [--render], and with
    another number of jobs. *)
Definition plain_config : Config :=
  {| graph_file := "rules.dot";
     rule_sequence := [1; 0; 5]%N;
     seed := 7;
     jobs := 3;
     episodes := 2;
     optim := false;
     render := false;
     save_image := "" |}.

(** The viewer alone, on the plan of zeros. *)
Definition viewer_config : Config :=
  {| graph_file := "rules.dot";
     rule_sequence := [1; 0; 5]%N;
     seed := 7;
     jobs := 0;
     episodes := 2;
     optim := false;
     render := true;
     save_image := "shot.png" |}.

(** A file without graphs. *)
Definition empty_config : Config :=
  {| graph_file := "empty.dot";
     rule_sequence := [1; 0; 5]%N;
     seed := 7;
     jobs := 0;
     episodes := 2;
     optim := true;
     render := true;
     save_image := "" |}.

(** The first episode of [main] on [config]. *)
Definition first_episode : M (Event (Scalar:=float)) Vars :=
  episode (robot_idx_of config) (dof_count_of config) 0 8 0
    (vars_before config).

(** The lockstep loop of the first episode, before its first round. *)
Definition first_lockstep : Lockstep :=
  {| ls_optimizer :=
       value (warmup (Scalar:=float) tt
                (optimizer_params (dof_count_of config) 8 7));
     ls_sim := saveState (main_sim (vars_before config));
     ls_input_sequence := input_sequence (vars_before config);
     ls_obs := obs (vars_before config);
     ls_rewards := rewards (vars_before config) |}.

(** An episode count that does not fit an [int]. *)
Definition long_config : Config :=
  {| graph_file := "rules.dot";
     rule_sequence := [1; 0; 5]%N;
     seed := 7;
     jobs := 0;
     episodes := 3000000000;
     optim := true;
     render := false;
     save_image := "" |}.

(** The plan of zeros and the main simulation of [config] before the
    episodes, with its state saved. *)
Definition zero_plan : list (list float) := input_sequence (vars_before config).

Definition saved_sim : Simulation (float * list float) :=
  saveState (main_sim (vars_before config)).

(** A framebuffer of two pixels by three: one row of eight bytes for
    each of its three rows, and a fresh buffer of that size. *)
Definition picture : list Byte.byte :=
  [ Byte.x10; Byte.x11; Byte.x12; Byte.x13; Byte.x14; Byte.x15; Byte.x16; Byte.x17;
    Byte.x20; Byte.x21; Byte.x22; Byte.x23; Byte.x24; Byte.x25; Byte.x26; Byte.x27;
    Byte.x30; Byte.x31; Byte.x32; Byte.x33; Byte.x34; Byte.x35; Byte.x36; Byte.x37 ].
Definition fresh_buffer : list Byte.byte := replicate 24 Byte.xff.

End Demo.

(** * Properties *)

(** The proofs do not depend on the length of an episode, the number of
    warm-up updates or the horizon. *)
#[global] Opaque episode_len warmup_updates horizon sample_count.

(** ** The trace monad *)

Section TraceFacts.
Context {Ev : Type}.
Implicit Types (A B St : Type).

Lemma value_ret {A} (a : A) : value (ret (Ev:=Ev) a) = a.
Proof. reflexivity. Qed.

Lemma events_ret {A} (a : A) : events (ret (Ev:=Ev) a) = [].
Proof. reflexivity. Qed.

Lemma value_bind {A B} (m : M Ev A) (f : A -> M Ev B) :
  value (bind m f) = value (f (value m)).
Proof. unfold value, bind. by destruct (f m.1). Qed.

Lemma events_bind {A B} (m : M Ev A) (f : A -> M Ev B) :
  events (bind m f) = events m ++ events (f (value m)).
Proof. unfold value, events, bind. by destruct (f m.1). Qed.

Lemma events_emit (e : Ev) : events (emit e) = [e].
Proof. reflexivity. Qed.

Lemma io_eq {A} (m1 m2 : M Ev A) :
  value m1 = value m2 -> events m1 = events m2 -> m1 = m2.
Proof. destruct m1, m2; simpl; congruence. Qed.

(** A loop of [S n] rounds is a loop of [n] rounds and one more. *)
Lemma for_loop_snoc {St} (body : nat -> St -> M Ev St) n lo s :
  for_loop (S n) lo body s =
  bind (for_loop n lo body s) (body (lo + n)%nat).
Proof.
  revert lo s; induction n as [|n IH]; intros lo s.
  - apply io_eq; simpl; rewrite ?value_bind, ?events_bind, Nat.add_0_r;
      simpl; by rewrite ?app_nil_r.
  - change (for_loop (S (S n)) lo body s)
      with (bind (body lo s) (for_loop (S n) (S lo) body)).
    change (for_loop (S n) lo body s)
      with (bind (body lo s) (for_loop n (S lo) body)).
    apply io_eq; rewrite ?value_bind, ?events_bind, IH,
      ?value_bind, ?events_bind, ?Nat.add_succ_comm, ?app_assoc; done.
Qed.

(** An invariant of the state that every round keeps holds after the loop,
    and a property of events that every round's events have holds of the
    loop's events. *)
Lemma for_loop_invariant {St} (I : St -> Prop) (P : Ev -> Prop)
    (body : nat -> St -> M Ev St) :
  (forall j s, I s -> I (value (body j s)) /\ Forall P (events (body j s))) ->
  forall n lo s, I s ->
    I (value (for_loop n lo body s)) /\
    Forall P (events (for_loop n lo body s)).
Proof.
  intros Hbody n; induction n as [|n IH]; intros lo s Hs; simpl.
  - by split; [|constructor].
  - rewrite value_bind, events_bind.
    destruct (Hbody lo s Hs) as [Hv He].
    destruct (IH (S lo) _ Hv) as [Hv' He'].
    split; [done|]. by apply Forall_app.
Qed.
End TraceFacts.

Ltac io_pair :=
  repeat match goal with
    | |- context [value (?a, ?t)] => change (value (a, t)) with a
    | |- context [events (?a, ?t)] => change (events (a, t)) with t
    end.

Ltac io_unfold :=
  repeat first
    [ rewrite value_bind | rewrite events_bind
    | rewrite value_ret | rewrite events_ret | rewrite events_emit
    | progress cbn beta ].

(** ** Saving and restoring a simulation *)

Section SimulationFacts.
Context {Dyn : Type}.
Implicit Types (s : Simulation Dyn) (d : Dyn).

Lemma restoreState_saved s d :
  sim_saved s = Some d ->
  restoreState s = {| sim_dyn := d; sim_saved := Some d |}.
Proof. intros Hs. unfold restoreState. by rewrite Hs. Qed.

Lemma sim_saved_on_dyn (f : Dyn -> Dyn) s :
  sim_saved (on_dyn f s) = sim_saved s.
Proof. reflexivity. Qed.

(** Whatever is done to the dynamics after a save, a restore undoes it. *)
Lemma restore_after_save (fs : list (Dyn -> Dyn)) s :
  sim_dyn (restoreState (foldr on_dyn (saveState s) fs)) = sim_dyn s.
Proof.
  rewrite (restoreState_saved _ (sim_dyn s)); [done|].
  induction fs as [|f fs IH]; [done|]. exact IH.
Qed.
End SimulationFacts.

(** ** Generating the robot graph *)

Section Rewriting.
Context {Scalar : Type} `{GG : GraphGrammar}.

Abbreviation rewrite_step' := (rewrite_step (Scalar:=Scalar)).
Abbreviation apply_rule_sequence' := (apply_rule_sequence (Scalar:=Scalar)).

Lemma create_rules_value (rule_graphs : list Graph) :
  value (create_rules (Scalar:=Scalar) rule_graphs) =
  map createRuleFromGraph rule_graphs.
Proof.
  induction rule_graphs as [|g gs IH]; [done|].
  cbn [create_rules]. io_unfold. by rewrite IH.
Qed.

Lemma rewrite_step_out_of_range (rules : list Rule) g idx :
  (N.of_nat (length rules) <= idx)%N ->
  rewrite_step' rules g idx = ret g.
Proof.
  intros Hle. unfold rewrite_step.
  rewrite (lookup_ge_None_2 rules (N.to_nat idx)) by lia. done.
Qed.


Lemma rewrite_step_first_match (rules : list Rule) g idx rule m0 ms :
  rules !! N.to_nat idx = Some rule ->
  findMatches (lhs_ rule) g = m0 :: ms ->
  rewrite_step' rules g idx =
  (applyRule rule g m0, [FindMatches (lhs_ rule) g; ApplyRule rule g m0]).
Proof. intros Hrule Hm. unfold rewrite_step. by rewrite Hrule, Hm. Qed.



End Rewriting.

(** ** Eigen block operations *)

Section EigenFacts.
Context {A : Type}.

(** Resizing by [n] more columns and assigning the last [n] of them is
    appending. *)
Lemma resize_assign_append (n : nat) (fresh : A) (src m : list A) :
  assign_rightCols n (leftCols n src)
    (conservativeResize (length m + n) fresh m)
  = m ++ take n src.
Proof.
  unfold assign_rightCols, leftCols, conservativeResize.
  rewrite (take_ge m) by lia.
  rewrite length_app, length_replicate.
  replace (length m + (length m + n - length m) - n)%nat with (length m)
    by lia.
  rewrite take_app_length, take_take. f_equal. f_equal. lia.
Qed.
End EigenFacts.

(** ** The backward recursion of the returns *)

Section Returns.
Context {Scalar : Type} `{SO : ScalarOps Scalar} `{MC : !MainConstants Scalar}.
Implicit Types (rewards returns : list Scalar).

Lemma length_returns_loop n rewards returns :
  length (returns_loop n rewards returns) = length returns.
Proof.
  revert returns; induction n as [|j IH]; intros returns; simpl; [done|].
  by rewrite IH, length_insert.
Qed.

(** Entries from [n] upwards are not written. *)
Lemma returns_loop_above n rewards returns t :
  (n <= t)%nat ->
  returns_loop n rewards returns !! t = returns !! t.
Proof.
  revert returns; induction n as [|j IH]; intros returns Hle; simpl; [done|].
  rewrite IH by lia. apply list_lookup_insert_ne. lia.
Qed.

Lemma returns_loop_total_above n rewards returns t :
  (n <= t)%nat ->
  returns_loop n rewards returns !!! t = returns !!! t.
Proof.
  intros. by rewrite !list_lookup_total_alt, returns_loop_above.
Qed.

(** Entries below [n] satisfy the recursion. *)
Lemma returns_loop_below n rewards returns t :
  (t < n)%nat -> (n < length returns)%nat ->
  returns_loop n rewards returns !! t =
  Some (s_add (rewards !!! t)
          (s_mul discount_factor (returns_loop n rewards returns !!! S t))).
Proof.
  revert returns; induction n as [|j IH]; intros returns Ht Hn; [lia|].
  cbn [returns_loop].
  destruct (decide (t = j)) as [->|Hne].
  - rewrite returns_loop_above by lia.
    rewrite returns_loop_total_above by lia.
    rewrite list_lookup_insert_eq by lia.
    by rewrite list_lookup_total_insert_ne by lia.
  - apply IH; [lia|]. rewrite length_insert. lia.
Qed.
End Returns.

(** ** The lockstep loop *)

Section LockstepFacts.
Context {Scalar : Type} `{SO : ScalarOps Scalar} `{MC : !MainConstants Scalar}.
Context `{GG : GraphGrammar}.
Context `{SP : !SimulationPort Scalar}.
Context `{VE : !ValueEstimator Scalar Dyn}.
Context `{OP : !Optimizer Scalar Estimator}.
Context `{RG : RandomGenerator}.

Lemma last_cons_default {A} (x d : A) (l : list A) :
  List.last (x :: l) d = List.last l x.
Proof.
  revert x d; induction l as [|y l IH]; intros x d; [done|].
  change (List.last (x :: y :: l) d) with (List.last (y :: l) d).
  by rewrite !IH.
Qed.

(** One physics step, written out. *)
Lemma physics_step_eq (robot_idx : Z) (j i : nat) (st : Lockstep) :
  let target := ls_input_sequence st !!! j in
  let d := step (setJointTargetPositions robot_idx target
                   (sim_dyn (ls_sim st))) in
  physics_step robot_idx j i st =
  ({| ls_optimizer := ls_optimizer st;
      ls_sim := {| sim_dyn := d; sim_saved := sim_saved (ls_sim st) |};
      ls_input_sequence := ls_input_sequence st;
      ls_obs := ls_obs st;
      ls_rewards := <[j := s_add (ls_rewards st !!! j) (objective_fn d)]>
                      (ls_rewards st) |},
   physics_events robot_idx j target d).
Proof. reflexivity. Qed.

(** The inner loop: [n] physics steps under the target of column [j]. *)
Lemma physics_loop (robot_idx : Z) (j n lo : nat) (st : Lockstep) :
  (j < length (ls_rewards st))%nat ->
  let target := ls_input_sequence st !!! j in
  let ds := held_states n robot_idx target (sim_dyn (ls_sim st)) in
  for_loop n lo (physics_step robot_idx j) st =
  ({| ls_optimizer := ls_optimizer st;
      ls_sim := {| sim_dyn := List.last ds (sim_dyn (ls_sim st));
                   sim_saved := sim_saved (ls_sim st) |};
      ls_input_sequence := ls_input_sequence st;
      ls_obs := ls_obs st;
      ls_rewards := <[j := fold_left s_add (map objective_fn ds)
                             (ls_rewards st !!! j)]> (ls_rewards st) |},
   flat_map (physics_events robot_idx j target) ds).
Proof.
  revert lo st; induction n as [|n IH]; intros lo st Hj.
  - simpl. rewrite list_insert_id by by apply list_lookup_lookup_total_lt.
    by destruct st as [? [] ? ? ?].
  - cbn zeta. cbn [for_loop held_states].
    rewrite physics_step_eq. cbn zeta.
    set (d' := step (setJointTargetPositions robot_idx
                       (ls_input_sequence st !!! j) (sim_dyn (ls_sim st)))).
    unfold bind. cbn [fst snd].
    rewrite IH by (cbn; rewrite length_insert; lia).
    cbn [ls_optimizer ls_sim ls_input_sequence ls_obs ls_rewards
         sim_dyn sim_saved map fold_left flat_map].
    rewrite list_lookup_total_insert_eq by lia.
    rewrite list_insert_insert_eq.
    by rewrite last_cons_default.
Qed.

Lemma length_held_states n robot_idx target (d : Dyn) :
  length (held_states n robot_idx target d) = n.
Proof. revert d; induction n as [|n IH]; intros d; simpl; by rewrite ?IH. Qed.

(** One control step, written out. *)
Lemma control_step_eq (ve : Estimator) (robot_idx : Z) (j : nat)
    (st : Lockstep) :
  (j < length (ls_input_sequence st))%nat ->
  (j < length (ls_rewards st))%nat ->
  let plan := update ve (ls_optimizer st) in
  let action := input_sequence_ plan !!! 0%nat in
  let o := getObservation ve (sim_dyn (ls_sim st)) in
  let ds := held_states interval robot_idx action (sim_dyn (ls_sim st)) in
  control_step ve robot_idx j st =
  ({| ls_optimizer := advance 1 plan;
      ls_sim := {| sim_dyn := List.last ds (sim_dyn (ls_sim st));
                   sim_saved := sim_saved (ls_sim st) |};
      ls_input_sequence := <[j := action]> (ls_input_sequence st);
      ls_obs := <[j := o]> (ls_obs st);
      ls_rewards := <[j := fold_left s_add (map objective_fn ds) s_zero]>
                      (ls_rewards st) |},
   [Update; Advance 1; GetObservation j o]
     ++ flat_map (physics_events robot_idx j action) ds).
Proof.
  intros Hseq Hrew. cbn zeta.
  unfold control_step, observe, bind, emit, ret. cbn [fst snd].
  rewrite physics_loop by (cbn; rewrite length_insert; lia).
  cbn [ls_optimizer ls_sim ls_input_sequence ls_obs ls_rewards].
  rewrite !list_lookup_total_insert_eq by lia.
  rewrite list_insert_insert_eq.
  reflexivity.
Qed.

(** C7. In control step [j] the committed action is the first column of
    the plan that [update] produced, the optimizer's window is then
    advanced by one, the observation of step [j] is the one of the main
    simulation as it was when the step began, and the reward of step [j]
    is the sum, from zero, of the objective values after each of exactly
    [interval] physics steps, all taken under the committed action. *)
Theorem control_step_spec (ve : Estimator) (robot_idx : Z) (j : nat)
    (st : Lockstep) :
  (j < length (ls_input_sequence st))%nat ->
  (j < length (ls_obs st))%nat ->
  (j < length (ls_rewards st))%nat ->
  let plan := update ve (ls_optimizer st) in
  let action := input_sequence_ plan !!! 0%nat in
  let o := getObservation ve (sim_dyn (ls_sim st)) in
  let ds := held_states interval robot_idx action (sim_dyn (ls_sim st)) in
  let st' := value (control_step ve robot_idx j st) in
  ls_input_sequence st' !! j = Some action /\
  ls_optimizer st' = advance 1 plan /\
  ls_obs st' !! j = Some o /\
  length ds = interval /\
  ls_rewards st' !! j = Some (fold_left s_add (map objective_fn ds) s_zero) /\
  sim_dyn (ls_sim st') = List.last ds (sim_dyn (ls_sim st)) /\
  events (control_step ve robot_idx j st) =
    [Update; Advance 1; GetObservation j o]
      ++ flat_map (fun d => [SetJointTargetPositions robot_idx (Z.of_nat j)
                               action;
                             Step;
                             Objective (objective_fn d)]) ds.
Proof.
  intros Hseq Hobs Hrew. cbn zeta.
  rewrite control_step_eq by done. cbn zeta.
  unfold value, events; cbn [fst snd ls_optimizer ls_sim ls_input_sequence
                             ls_obs ls_rewards sim_dyn].
  rewrite !list_lookup_insert_eq by done.
  by rewrite length_held_states.
Qed.

Lemma physics_step_kept a b c saved robot_idx j i st :
  lockstep_kept a b c saved st ->
  lockstep_kept a b c saved (value (physics_step robot_idx j i st)) /\
  Forall (fun e => lockstep_event e = true)
    (events (physics_step robot_idx j i st)).
Proof.
  intros (Ha & Hb & Hc & Hs). rewrite physics_step_eq. cbn zeta.
  unfold lockstep_kept, value, events, physics_events; cbn.
  rewrite length_insert. repeat split; try done.
  by repeat constructor.
Qed.

Lemma control_step_kept a b c saved ve robot_idx j st :
  lockstep_kept a b c saved st ->
  lockstep_kept a b c saved (value (control_step ve robot_idx j st)) /\
  Forall (fun e => lockstep_event e = true)
    (events (control_step ve robot_idx j st)).
Proof.
  intros (Ha & Hb & Hc & Hs). unfold control_step, observe. io_unfold.
  match goal with
  | |- context [for_loop ?n ?lo ?body ?s0] =>
      destruct (for_loop_invariant (lockstep_kept a b c saved)
                  (fun e => lockstep_event e = true) body
                  (fun i s => physics_step_kept a b c saved robot_idx j i s)
                  n lo s0) as [Hv He];
        [ unfold lockstep_kept; cbn; by rewrite !length_insert | ]
  end.
  split; [exact Hv|].
  repeat (apply Forall_app; split); by repeat constructor.
Qed.

Lemma lockstep_kept_loop ve robot_idx optimizer sim (v : Vars) :
  lockstep_kept (length (input_sequence v)) (length (obs v))
    (length (rewards v)) (sim_saved sim)
    (value (lockstep ve robot_idx optimizer sim v)) /\
  Forall (fun e => lockstep_event e = true)
    (events (lockstep ve robot_idx optimizer sim v)).
Proof.
  unfold lockstep. apply for_loop_invariant.
  - intros; by apply control_step_kept.
  - by unfold lockstep_kept.
Qed.
End LockstepFacts.

(** ** Episodes *)

Section EpisodeFacts.
Context {Scalar : Type} `{SO : ScalarOps Scalar} `{MC : !MainConstants Scalar}.
Context `{GG : GraphGrammar}.
Context `{SP : !SimulationPort Scalar}.
Context `{VE : !ValueEstimator Scalar Dyn}.
Context `{OP : !Optimizer Scalar Estimator}.
Context `{RG : RandomGenerator}.

(** One episode, written out: its parts are named, and the two resizing
    assignments of the replay buffer are appends. *)
Lemma episode_eq (robot_idx : Z) (dof_count obs_size : nat)
    (thread_count : N) (episode_idx : nat) (v : Vars) :
  let ve := value_estimator v in
  let drawn := generate (generator v) in
  let params := optimizer_params dof_count thread_count drawn.1 in
  let optimizer := value (warmup ve params) in
  let run := lockstep ve robot_idx optimizer (saveState (main_sim v)) v in
  let ls := value run in
  let o := getObservation ve (sim_dyn (ls_sim ls)) in
  let obs' := <[episode_len := o]> (ls_obs ls) in
  let bootstrap := estimateValue ve (obs' !!! episode_len) in
  let returns' :=
    returns_loop episode_len (ls_rewards ls)
      (<[(length (returns v) - 1)%nat := bootstrap]> (returns v)) in
  let replay_obs' := replay_obs v ++ take episode_len obs' in
  let replay_returns' := replay_returns v ++ take episode_len returns' in
  episode robot_idx dof_count obs_size thread_count episode_idx v =
  ({| main_sim := restoreState (ls_sim ls);
      value_estimator := train ve replay_obs' replay_returns';
      generator := drawn.2;
      input_sequence := ls_input_sequence ls;
      obs := obs';
      rewards := ls_rewards ls;
      returns := returns';
      replay_obs := replay_obs';
      replay_returns := replay_returns' |},
   [Cout [Text "Episode "; Int (Z.of_nat episode_idx)]; NewOptimizer params]
     ++ events (warmup ve params)
     ++ [SaveState]
     ++ events run
     ++ [GetObservation episode_len o; RestoreState;
         EstimateValue (obs' !!! episode_len) bootstrap;
         Train replay_obs' replay_returns';
         Cout [Text "Total reward: "; Real (s_sum (ls_rewards ls))]]).
Proof.
  cbn zeta. unfold episode.
  destruct (generate (generator v)) as [opt_seed generator'].
  cbn [fst snd].
  unfold sim_saveState, sim_restoreState, observe.
  apply io_eq; io_unfold; rewrite !resize_assign_append; [done|].
  cbn [app]. by rewrite <- ?app_assoc.
Qed.

Lemma warmup_events (ve : Estimator) (params : OptimizerParams Scalar) :
  Forall (fun e => e = Update) (events (warmup ve params)).
Proof.
  unfold warmup.
  apply (for_loop_invariant (fun _ => True) (fun e => e = Update)); [|done].
  intros j s _. split; [done|]. unfold warmup_step. io_unfold.
  by repeat constructor.
Qed.

Lemma initial_vars_sized (sim : Simulation Dyn) (ve : Estimator)
    (gen : Generator) (dof_count : nat) :
  vars_sized (initial_vars sim ve gen dof_count).
Proof.
  unfold vars_sized, initial_vars; cbn [input_sequence obs rewards returns].
  by rewrite !length_replicate.
Qed.

Lemma episode_sized robot_idx dof_count obs_size thread_count k (v : Vars) :
  vars_sized v ->
  vars_sized (value (episode robot_idx dof_count obs_size thread_count k v)).
Proof.
  intros (Hseq & Hobs & Hrew & Hret). rewrite episode_eq. cbn zeta.
  match goal with
  | |- context [lockstep ?ve ?idx ?o ?sim v] =>
      destruct (lockstep_kept_loop ve idx o sim v) as [(Ha & Hb & Hc & _) _];
      set (ls := value (lockstep ve idx o sim v)) in *
  end.
  io_pair. unfold vars_sized. cbn [input_sequence obs rewards returns].
  rewrite length_insert, length_returns_loop, length_insert.
  repeat split; congruence.
Qed.

Lemma after_episodes_S robot_idx dof_count obs_size thread_count (v : Vars) k :
  after_episodes robot_idx dof_count obs_size thread_count v (S k) =
  value (episode robot_idx dof_count obs_size thread_count k
           (after_episodes robot_idx dof_count obs_size thread_count v k)).
Proof. unfold after_episodes. by rewrite for_loop_snoc, value_bind. Qed.

Lemma after_episodes_sized robot_idx dof_count obs_size thread_count v k :
  vars_sized v ->
  vars_sized (after_episodes robot_idx dof_count obs_size thread_count v k).
Proof.
  intros Hv. induction k as [|k IH]; [done|].
  rewrite after_episodes_S. by apply episode_sized.
Qed.

(** C1. After an episode, the last entry of [returns] is the estimator's
    value of the final observation (the observation taken from the main
    simulation when the replay has ended), and every earlier entry is the
    reward of its step plus the discount factor times the next entry. *)
Theorem returns_recursion (robot_idx : Z) (dof_count obs_size : nat)
    (thread_count : N) (episode_idx : nat) (v : Vars) :
  vars_sized v ->
  let ep := episode robot_idx dof_count obs_size thread_count episode_idx v in
  let v' := value ep in
  let final_observation := obs v' !!! episode_len in
  GetObservation episode_len final_observation ∈ events ep /\
  returns v' !! episode_len =
    Some (estimateValue (value_estimator v) final_observation) /\
  forall t, (t < episode_len)%nat ->
    returns v' !! t =
    Some (s_add (rewards v' !!! t)
            (s_mul discount_factor (returns v' !!! S t))).
Proof.
  intros (Hseq & Hobs & Hrew & Hret). cbn zeta.
  rewrite episode_eq. cbn zeta.
  match goal with
  | |- context [lockstep ?ve ?idx ?o ?sim v] =>
      destruct (lockstep_kept_loop ve idx o sim v) as [(Ha & Hb & Hc & _) _];
      set (ls := value (lockstep ve idx o sim v)) in *
  end.
  io_pair. cbn [obs rewards returns].
  rewrite (list_lookup_total_insert_eq (ls_obs ls)) by lia.
  split; [|split].
  - rewrite !elem_of_app. do 4 right. apply elem_of_cons. by left.
  - rewrite returns_loop_above by lia.
    rewrite Hret, Nat.add_sub. by rewrite list_lookup_insert_eq by lia.
  - intros t Ht. apply returns_loop_below; [done|].
    rewrite length_insert. lia.
Qed.

(** An episode leaves the main simulation in the state it found it in. *)
Lemma episode_restores robot_idx dof_count obs_size thread_count k (v : Vars) :
  sim_dyn (main_sim (value (episode robot_idx dof_count obs_size
                              thread_count k v)))
  = sim_dyn (main_sim v).
Proof.
  rewrite episode_eq. cbn zeta.
  match goal with
  | |- context [lockstep ?ve ?idx ?o ?sim v] =>
      destruct (lockstep_kept_loop ve idx o sim v) as [(_ & _ & _ & Hs) _];
      set (ls := value (lockstep ve idx o sim v)) in *
  end.
  io_pair. cbn [main_sim]. unfold restoreState. by rewrite Hs.
Qed.

Lemma after_episodes_restored robot_idx dof_count obs_size thread_count v k :
  sim_dyn (main_sim (after_episodes robot_idx dof_count obs_size
                       thread_count v k))
  = sim_dyn (main_sim v).
Proof.
  induction k as [|k IH]; [done|].
  by rewrite after_episodes_S, episode_restores.
Qed.

(** C4, with the restore where the program has it.  Every episode saves
    the state of the main simulation before the replay, and restores it
    once the final observation has been taken, before the value estimator
    is evaluated on that observation;
    nothing else in the episode touches the main simulation outside the
    replay.  The episode therefore ends in the state it started in, and
    every episode of a run starts in the state the first one started in. *)
Theorem episode_checkpoint (robot_idx : Z) (dof_count obs_size : nat)
    (thread_count : N) (v : Vars) (k : nat) :
  let start :=
    after_episodes robot_idx dof_count obs_size thread_count v k in
  let ep := episode robot_idx dof_count obs_size thread_count k start in
  sim_dyn (main_sim start) = sim_dyn (main_sim v) /\
  sim_dyn (main_sim (value ep)) = sim_dyn (main_sim start) /\
  exists before replay o o' b rest,
    events ep =
      before ++ [SaveState] ++ replay
        ++ [GetObservation episode_len o; RestoreState; EstimateValue o' b]
        ++ rest /\
    Forall (fun e => touches_sim e = false) before /\
    Forall (fun e => is_checkpoint e = false) replay /\
    Forall (fun e => touches_sim e = false) rest.
Proof.
  cbn zeta. split; [apply after_episodes_restored|].
  split; [apply episode_restores|].
  rewrite episode_eq. cbn zeta. io_pair.
  match goal with
  | |- context [lockstep ?ve ?idx ?o ?sim ?w] =>
      destruct (lockstep_kept_loop ve idx o sim w) as [_ Hev]
  end.
  match goal with
  | |- context [?pre ++ ?W ++ [SaveState] ++ ?R
                  ++ [GetObservation _ ?o; RestoreState; EstimateValue ?o' ?b;
                      ?t; ?c]] =>
      exists (pre ++ W), R, o, o', b, [t; c]
  end.
  split; [by rewrite <- app_assoc|]. repeat split.
  - apply Forall_app; split; [by repeat constructor|].
    eapply List.Forall_impl; [|apply warmup_events]. by intros ? ->.
  - eapply List.Forall_impl; [|exact Hev]. by intros [].
  - by repeat constructor.
Qed.

(** An episode appends to the replay buffer. *)
Lemma episode_appends robot_idx dof_count obs_size thread_count (v : Vars) k :
  let state := after_episodes robot_idx dof_count obs_size thread_count v in
  replay_obs (state (S k)) =
    replay_obs (state k) ++ take episode_len (obs (state (S k))) /\
  replay_returns (state (S k)) =
    replay_returns (state k) ++ take episode_len (returns (state (S k))).
Proof.
  cbn zeta. rewrite after_episodes_S, episode_eq. cbn zeta. io_pair. done.
Qed.

Lemma replay_lengths robot_idx dof_count obs_size thread_count (v : Vars) k :
  vars_sized v ->
  let state := after_episodes robot_idx dof_count obs_size thread_count v in
  length (replay_obs (state k)) =
    (length (replay_obs v) + k * episode_len)%nat /\
  length (replay_returns (state k)) =
    (length (replay_returns v) + k * episode_len)%nat.
Proof.
  intros Hv. cbn zeta. induction k as [|k [IHo IHr]].
  - unfold after_episodes; cbn [for_loop]. rewrite value_ret. lia.
  - destruct (episode_appends robot_idx dof_count obs_size thread_count v k)
      as [-> ->].
    destruct (after_episodes_sized robot_idx dof_count obs_size thread_count
                v (S k) Hv) as (_ & Ho & _ & Hr).
    rewrite !length_app, !length_take, IHo, IHr, Ho, Hr. lia.
Qed.

(** C5. From the variables as [main] sets them up, the state after [k]
    episodes has exactly [k * episode_len] observations and as many
    returns in the replay buffer, and the next episode leaves those in
    place at the front of the buffer.  With the optimize flag set, [main]
    runs the episodes that the episode count asks for. *)
Theorem replay_buffer_growth (cfg : Config) (robot_idx : Z)
    (dof_count obs_size : nat) (thread_count : N) (sim : Simulation Dyn)
    (ve : Estimator) (gen : Generator) :
  optim cfg = true ->
  let v0 := initial_vars sim ve gen dof_count in
  let state := after_episodes robot_idx dof_count obs_size thread_count v0 in
  value (optimize cfg robot_idx dof_count obs_size thread_count v0) =
    state (Z.to_nat (wrap_int (Z.of_N (episodes cfg)))) /\
  forall k,
    length (replay_obs (state k)) = (k * episode_len)%nat /\
    length (replay_returns (state k)) = (k * episode_len)%nat /\
    take (k * episode_len) (replay_obs (state (S k))) = replay_obs (state k) /\
    take (k * episode_len) (replay_returns (state (S k))) =
      replay_returns (state k).
Proof.
  intros Hoptim. cbn zeta. split.
  { unfold optimize. by rewrite Hoptim. }
  intros k.
  destruct (replay_lengths robot_idx dof_count obs_size thread_count
              (initial_vars sim ve gen dof_count) k
              (initial_vars_sized _ _ _ _)) as [Ho Hr].
  cbn [initial_vars replay_obs replay_returns length] in Ho, Hr.
  rewrite Nat.add_0_l in Ho, Hr.
  destruct (episode_appends robot_idx dof_count obs_size thread_count
              (initial_vars sim ve gen dof_count) k) as [-> ->].
  repeat split; try done.
  - by rewrite <- Ho, take_app_length.
  - by rewrite <- Hr, take_app_length.
Qed.

Lemma filter_none {A} (f : A -> bool) (l : list A) :
  Forall (fun x => f x = false) l -> List.filter f l = [].
Proof.
  induction 1 as [|x l Hx _ IH]; [done|]. simpl. by rewrite Hx.
Qed.

(** C6. The one call of [train] in an episode receives the whole replay
    buffer as it is after the episode: what was in the buffer before,
    followed by the episode's observations and returns.  In a run of
    [main] this is every pair of every episode so far. *)
Theorem train_on_whole_buffer (robot_idx : Z) (dof_count obs_size : nat)
    (thread_count : N) (sim : Simulation Dyn) (ve : Estimator)
    (gen : Generator) (k : nat) :
  let v0 := initial_vars sim ve gen dof_count in
  let state := after_episodes robot_idx dof_count obs_size thread_count v0 in
  let ep :=
    episode robot_idx dof_count obs_size thread_count k (state k) in
  let buffer_obs := replay_obs (state (S k)) in
  let buffer_returns := replay_returns (state (S k)) in
  List.filter is_train (events ep) = [Train buffer_obs buffer_returns] /\
  value_estimator (state (S k)) =
    train (value_estimator (state k)) buffer_obs buffer_returns /\
  buffer_obs =
    replay_obs (state k) ++ take episode_len (obs (state (S k))) /\
  buffer_returns =
    replay_returns (state k) ++ take episode_len (returns (state (S k))) /\
  length buffer_obs = (S k * episode_len)%nat /\
  length buffer_returns = (S k * episode_len)%nat.
Proof.
  cbn zeta.
  set (v0 := initial_vars sim ve gen dof_count).
  destruct (replay_lengths robot_idx dof_count obs_size thread_count v0 (S k)
              (initial_vars_sized _ _ _ _)) as [Ho Hr].
  cbn [v0 initial_vars replay_obs replay_returns length] in Ho, Hr.
  rewrite Nat.add_0_l in Ho, Hr.
  destruct (episode_appends robot_idx dof_count obs_size thread_count v0 k)
    as [Hao Har].
  split; [|split; [|by repeat split]];
    rewrite after_episodes_S, episode_eq; cbn zeta; io_pair;
    cbn [value_estimator replay_obs replay_returns]; [|reflexivity].
  match goal with
  | |- context [lockstep ?e ?idx ?o ?s ?w] =>
      destruct (lockstep_kept_loop e idx o s w) as [_ Hev]
  end.
  rewrite !List.filter_app.
  rewrite (filter_none is_train (events (warmup _ _))).
  2:{ eapply List.Forall_impl; [|apply warmup_events]. by intros ? ->. }
  rewrite (filter_none is_train (events (lockstep _ _ _ _ _))).
  2:{ eapply List.Forall_impl; [|exact Hev]. by intros []. }
  reflexivity.
Qed.

End EpisodeFacts.

(** ** The viewer's replay loop *)

Section RenderFacts.
Context {Scalar : Type} `{SO : ScalarOps Scalar} `{MC : !MainConstants Scalar}.
Context `{GG : GraphGrammar}.
Context `{SP : !SimulationPort Scalar}.
Context `{VE : !ValueEstimator Scalar Dyn}.
Context `{OP : !Optimizer Scalar Estimator}.
Context `{RG : RandomGenerator}.

Lemma wrap_int_small (z : Z) : - 2 ^ 31 <= z < 2 ^ 31 -> wrap_int z = z.
Proof.
  intros Hz. unfold wrap_int.
  change (2 ^ 31) with 2147483648 in *. change (2 ^ 32) with 4294967296.
  rewrite Z.mod_small; lia.
Qed.

(** One round of the inner loop from a state in range: the access is inside
    the matrix, the next state is in range again, and when the column
    counter has run through the matrix both counters restart at zero and
    the simulation is back in its saved state. *)
Lemma render_substep_inv (robot_idx : Z) (m : list (list Scalar)) (d : Dyn)
    (st : Replay) :
  Z.of_nat (length m) < 2 ^ 31 ->
  replay_inv m d st ->
  exists st',
    value (render_substep robot_idx m st) = Some st' /\
    replay_inv m d st' /\
    Forall (target_in_bounds m) (events (render_substep robot_idx m st)) /\
    (rp_i st + 1 = Z.of_nat interval ->
     rp_j st + 1 = Z.of_nat (length m) ->
     st' = {| rp_i := 0; rp_j := 0;
              rp_sim := {| sim_dyn := d; sim_saved := Some d |} |}).
Proof.
  intros Hcols (Hi & Hj & Hsaved).
  assert (Hint : Z.of_nat interval = 4) by reflexivity.
  change (2 ^ 31) with 2147483648 in Hcols.
  unfold render_substep, col.
  destruct (decide (0 <= rp_j st < Z.of_nat (length m))) as [_|]; [|lia].
  destruct (lookup_lt_is_Some_2 m (Z.to_nat (rp_j st))) as [target Htarget];
    [lia|].
  rewrite Htarget.
  unfold sim_setJointTargetPositions, sim_step, sim_restoreState.
  rewrite !wrap_int_small
    by (change (2 ^ 31) with 2147483648; lia).
  assert (Hsafe : target_in_bounds m
            (SetJointTargetPositions robot_idx (rp_j st) target)) by done.
  destruct (decide (Z.of_nat interval <= rp_i st + 1)) as [Hi'|Hi'];
    [destruct (decide (Z.of_nat (length m) <= rp_j st + 1)) as [Hj'|Hj']
    |destruct (decide (Z.of_nat (length m) <= rp_j st)) as [Hj'|Hj']; [lia|]];
    io_unfold; eexists; (split; [reflexivity|]);
    rewrite ?(restoreState_saved _ d) by done;
    (split; [unfold replay_inv; cbn; repeat split; (done || lia)|]);
    (split; [cbn [app];
             repeat (constructor; [first [exact Hsafe | exact I]|]);
             constructor|]);
    intros; (done || lia).
Qed.

Lemma render_substeps_inv (n : nat) (robot_idx : Z) (m : list (list Scalar))
    (d : Dyn) (st : Replay) :
  Z.of_nat (length m) < 2 ^ 31 ->
  replay_inv m d st ->
  exists st',
    value (render_substeps n robot_idx m st) = Some st' /\
    replay_inv m d st' /\
    Forall (target_in_bounds m) (events (render_substeps n robot_idx m st)).
Proof.
  intros Hcols. revert st; induction n as [|n IH]; intros st Hst.
  - exists st. split; [done|]. split; [done|]. constructor.
  - destruct (render_substep_inv robot_idx m d st Hcols Hst)
      as (st1 & Hv1 & Hst1 & He1 & _).
    destruct (IH st1 Hst1) as (st' & Hv' & Hst' & He').
    exists st'. cbn [render_substeps]. io_unfold. rewrite Hv1.
    split; [done|]. split; [done|]. by apply Forall_app.
Qed.

Lemma render_frames_inv (frames : list nat) (robot_idx : Z)
    (m : list (list Scalar)) (d : Dyn) (st : Replay) :
  Z.of_nat (length m) < 2 ^ 31 ->
  replay_inv m d st ->
  exists st',
    value (render_frames frames robot_idx m st) = Some st' /\
    replay_inv m d st' /\
    Forall (target_in_bounds m) (events (render_frames frames robot_idx m st)).
Proof.
  intros Hcols. revert st; induction frames as [|n frames IH]; intros st Hst.
  - exists st. split; [done|]. split; [done|]. constructor.
  - destruct (render_substeps_inv n robot_idx m d st Hcols Hst)
      as (st1 & Hv1 & Hst1 & He1).
    destruct (IH st1 Hst1) as (st' & Hv' & Hst' & He').
    exists st'. cbn [render_frames]. io_unfold. rewrite Hv1. io_unfold.
    split; [done|]. split; [done|].
    apply Forall_app; split; [done|]. by constructor.
Qed.

(** C10. Started with both counters in range and a state saved, the
    viewer's loop never reads a column outside [input_sequence]: for any
    sequence of frames it runs to the end with the counters again in
    range, every joint target it sets is the column at an index [j] with
    [0 <= j < cols], and a round that takes the column counter to [cols]
    resets both counters to zero and puts the simulation back in the saved
    state. *)
Theorem render_in_bounds (frames : list nat) (robot_idx : Z)
    (m : list (list Scalar)) (d : Dyn) (st : Replay) :
  Z.of_nat (length m) < 2 ^ 31 ->
  replay_inv m d st ->
  (exists st',
      value (render_frames frames robot_idx m st) = Some st' /\
      replay_inv m d st') /\
  Forall (target_in_bounds m) (events (render_frames frames robot_idx m st)) /\
  (forall st1,
      replay_inv m d st1 ->
      rp_i st1 + 1 = Z.of_nat interval ->
      rp_j st1 + 1 = Z.of_nat (length m) ->
      value (render_substep robot_idx m st1) =
      Some {| rp_i := 0; rp_j := 0;
              rp_sim := {| sim_dyn := d; sim_saved := Some d |} |}).
Proof.
  intros Hcols Hst.
  destruct (render_frames_inv frames robot_idx m d st Hcols Hst)
    as (st' & Hv & Hst' & He).
  split; [by exists st'|]. split; [done|].
  intros st1 Hst1 Hi Hj.
  destruct (render_substep_inv robot_idx m d st1 Hcols Hst1)
    as (st2 & Hv2 & _ & _ & Hreset).
  by rewrite Hv2, (Hreset Hi Hj).
Qed.

End RenderFacts.

(** ** The whole program *)

Section MainFacts.
Context {Scalar : Type} `{SO : ScalarOps Scalar} `{MC : !MainConstants Scalar}.
Context `{GG : GraphGrammar}.
Context `{SP : !SimulationPort Scalar}.
Context `{VE : !ValueEstimator Scalar Dyn}.
Context `{OP : !Optimizer Scalar Estimator}.
Context `{RG : RandomGenerator}.

Lemma episode_len_small : Z.of_nat episode_len < 2 ^ 31.
Proof. by vm_compute. Qed.

Lemma episode_len_pos : 0 < Z.of_nat episode_len.
Proof. by vm_compute. Qed.

Lemma optimization_sized (cfg : Config) (inp : Inputs) :
  vars_sized (value (optimization cfg inp)).
Proof.
  unfold optimization, optimize, vars_before.
  destruct (optim cfg).
  - apply (after_episodes_sized _ _ _ _ _ _ (initial_vars_sized _ _ _ _)).
  - apply initial_vars_sized.
Qed.

(** A run that found graphs in its file, written out. *)
Lemma run_eq (cfg : Config) (inp : Inputs) :
  loadGraphs (graph_file cfg) <> [] ->
  let vars := value (optimization cfg inp) in
  let sim := saveState (main_sim vars) in
  exists (replay : option Replay) (shown : list Event),
    value (run cfg inp) =
      Exited 0 (Some {| fin_robot_graph := robot_graph_of Scalar cfg;
                        fin_vars :=
                          with_main_sim
                            (from_option rp_sim sim replay) vars;
                        fin_replay := replay |}) /\
    events (run cfg inp) =
      [LoadGraphs (graph_file cfg);
       Cout [Text "Number of graphs: ";
             Count (length (loadGraphs (graph_file cfg)))]]
        ++ events (create_rules (Scalar:=Scalar) (loadGraphs (graph_file cfg)))
        ++ events (apply_rule_sequence (Scalar:=Scalar) (rules_of cfg)
                     seed_graph (rule_sequence cfg))
        ++ [BuildRobot (robot_graph_of Scalar cfg); TempSimulation; MakeSim]
        ++ events (optimization cfg inp)
        ++ [SaveState]
        ++ events (save_snapshot (Scalar:=Scalar) (save_image cfg)
                     (encode_error inp))
        ++ shown /\
    Forall (target_in_bounds (input_sequence vars)) shown.
Proof.
  intros Hgraphs. cbn zeta.
  pose proof (optimization_sized cfg inp) as (Hseq & _).
  unfold run.
  destruct (loadGraphs (graph_file cfg)) as [|g gs] eqn:Hload; [done|].
  rewrite <- Hload.
  assert (Hrules : value (create_rules (Scalar:=Scalar)
                            (loadGraphs (graph_file cfg))) = rules_of cfg)
    by apply create_rules_value.
  unfold sim_saveState. io_unfold. rewrite Hrules.
  fold (robot_graph_of Scalar cfg). fold (initial_dyn cfg).
  cbn [sim_dyn]. fold (robot_idx_of cfg). fold (dof_count_of cfg). fold (vars_before cfg).
  fold (optimization cfg inp).
  destruct (render cfg).
  - destruct (render_frames_inv (frames inp) (robot_idx_of cfg)
                (input_sequence (value (optimization cfg inp)))
                (sim_dyn (main_sim (value (optimization cfg inp))))
                {| rp_i := 0; rp_j := 0;
                   rp_sim := saveState (main_sim (value (optimization cfg inp)))
                |}) as (st & Hv & _ & He).
    { rewrite Hseq. apply episode_len_small. }
    { unfold replay_inv; cbn [rp_i rp_j rp_sim]. rewrite Hseq.
      pose proof episode_len_pos. split; [done|]. split; [lia|done]. }
    exists (Some st), (events (render_frames (frames inp) (robot_idx_of cfg)
                         (input_sequence (value (optimization cfg inp)))
                         {| rp_i := 0; rp_j := 0;
                            rp_sim := saveState
                              (main_sim (value (optimization cfg inp))) |})).
    io_unfold. rewrite Hv. io_unfold.
    split; [done|]. split; [|done].
    cbn [app]. by rewrite ?app_nil_r.
  - exists None, []. io_unfold. split; [done|]. split; [|constructor].
    cbn [app]. by rewrite ?app_nil_r.
Qed.

(** C8. When the graph file holds no graph, [main] reports the error and
    returns a non-zero exit code; loading the file and writing the message
    are the only things it has done by then: no rule was created, no rule
    matched or applied, no robot built and no simulation made. *)
Theorem empty_graph_file_exits (inp : Inputs) (cfg : Config) :
  parse_cli inp = Parsed cfg ->
  loadGraphs (graph_file cfg) = [] ->
  exists code,
    code <> 0 /\
    main (Scalar:=Scalar) inp =
    (Exited code None,
     [LoadGraphs (graph_file cfg);
      Cerr [Text "Graph file does not contain any graphs"]]).
Proof.
  intros Hparse Hempty. exists 1. split; [done|].
  unfold main, run. by rewrite Hparse, Hempty.
Qed.

Lemma built_graph_run (cfg : Config) (inp : Inputs) :
  loadGraphs (graph_file cfg) <> [] ->
  built_graph (value (run cfg inp)) = Some (robot_graph_of Scalar cfg).
Proof.
  intros Hgraphs.
  destruct (run_eq cfg inp Hgraphs) as (replay & shown & Hv & _).
  by rewrite Hv.
Qed.

(** No run of [main] reads a column outside [input_sequence]. *)
Lemma main_in_bounds (inp : Inputs) :
  value (main (Scalar:=Scalar) inp) <> OutOfBounds.
Proof.
  unfold main. destruct (parse_cli inp) as [cfg| | | |]; try done.
  destruct (loadGraphs (graph_file cfg)) as [|g gs] eqn:Hload.
  - unfold run. by rewrite Hload.
  - destruct (run_eq cfg inp) as (replay & shown & Hv & _); [congruence|].
    by rewrite Hv.
Qed.

Lemma built_graph_run_empty (cfg : Config) (inp : Inputs) :
  loadGraphs (graph_file cfg) = [] ->
  built_graph (value (run (Scalar:=Scalar) cfg inp)) = None.
Proof. intros Hempty. unfold run. by rewrite Hempty. Qed.

Lemma apply_rule_sequence_refines (rules : list Rule) g sequence :
  value (apply_rule_sequence (Scalar:=Scalar) rules g sequence) =
  spec_applyRuleSequence g rules sequence.
Proof.
  revert g; induction sequence as [|idx rest IH]; intros g; [done|].
  cbn [apply_rule_sequence]. io_unfold. rewrite IH.
  unfold spec_applyRuleSequence. cbn [foldl]. f_equal.
  unfold rewrite_step, spec_rewrite.
  destruct (rules !! N.to_nat idx) as [rule|]; [|done].
  by destruct (findMatches (lhs_ rule) g).
Qed.

Lemma apply_rule_sequence_applies (rules : list Rule) pre rule_idx post
    rule m0 ms :
  forall g0,
    rules !! N.to_nat rule_idx = Some rule ->
    findMatches (lhs_ rule)
      (value (apply_rule_sequence (Scalar:=Scalar) rules g0 pre)) = m0 :: ms ->
    ApplyRule rule (value (apply_rule_sequence (Scalar:=Scalar) rules g0 pre))
      m0
    ∈ events (apply_rule_sequence (Scalar:=Scalar) rules g0
                (pre ++ rule_idx :: post)).
Proof.
  induction pre as [|idx pre IH]; intros g0 Hrule Hmatch.
  - cbn [app apply_rule_sequence] in *. io_unfold.
    cbn [value ret fst] in Hmatch.
    rewrite (rewrite_step_first_match rules g0 rule_idx rule m0 ms Hrule Hmatch).
    cbn [events snd value fst].
    apply elem_of_app. left. apply elem_of_cons. right.
    apply elem_of_cons. by left.
  - cbn [app apply_rule_sequence] in *. io_unfold.
    revert Hmatch. io_unfold. intros Hmatch.
    apply elem_of_app. right. by apply IH.
Qed.

(** C3. The rewrite is deterministic, and it is the greedy rewrite of the
    specification.  Two runs of [main] that agree on the seed, the graph
    file and the rule sequence end with the same robot graph, whatever
    else differs between them.  That graph is the seed graph carried
    through the rule sequence in order, out-of-range indices and rules
    without a match skipped and every other step replacing the current
    graph by its rule applied at the first match.  At every index of the
    sequence that is in range and whose pattern matches the graph current
    at that index, the run applies the rule to that graph at the first
    match the matcher returned, and the graph it ends with is the rest of
    the sequence carried out on the result.  One such step on its own
    asks the matcher once and applies the rule once. *)
Theorem rewrite_deterministic (inp1 inp2 : Inputs) (cfg1 cfg2 : Config) :
  parse_cli inp1 = Parsed cfg1 ->
  parse_cli inp2 = Parsed cfg2 ->
  seed cfg1 = seed cfg2 ->
  graph_file cfg1 = graph_file cfg2 ->
  rule_sequence cfg1 = rule_sequence cfg2 ->
  built_graph (value (main inp1)) = built_graph (value (main inp2)) /\
  (loadGraphs (graph_file cfg1) <> [] ->
   built_graph (value (main inp1)) =
   Some (spec_applyRuleSequence seed_graph (rules_of cfg1)
           (rule_sequence cfg1))) /\
  (forall pre rule_idx post rule m0 ms,
      loadGraphs (graph_file cfg1) <> [] ->
      rule_sequence cfg1 = pre ++ rule_idx :: post ->
      let current := spec_applyRuleSequence seed_graph (rules_of cfg1) pre in
      rules_of cfg1 !! N.to_nat rule_idx = Some rule ->
      findMatches (lhs_ rule) current = m0 :: ms ->
      ApplyRule rule current m0 ∈ events (main inp1) /\
      built_graph (value (main inp1)) =
      Some (spec_applyRuleSequence (applyRule rule current m0)
              (rules_of cfg1) post)) /\
  (forall (rules : list Rule) g rule_idx rule m0 ms,
      rules !! N.to_nat rule_idx = Some rule ->
      findMatches (lhs_ rule) g = m0 :: ms ->
      rewrite_step (Scalar:=Scalar) rules g rule_idx =
      (applyRule rule g m0,
       [FindMatches (lhs_ rule) g; ApplyRule rule g m0])).
Proof.
  intros Hp1 Hp2 _ Hfile Hseq.
  unfold main. rewrite Hp1, Hp2.
  split; [|split; [|split]].
  - destruct (loadGraphs (graph_file cfg1)) as [|g gs] eqn:Hload.
    + rewrite !built_graph_run_empty; congruence.
    + rewrite !built_graph_run by congruence.
      unfold robot_graph_of, rules_of. by rewrite Hfile, Hseq.
  - intros Hgraphs. rewrite built_graph_run by done.
    unfold robot_graph_of. by rewrite apply_rule_sequence_refines.
  - intros pre rule_idx post rule m0 ms Hgraphs Hsplit Hrule Hmatch. split.
    + destruct (run_eq cfg1 inp1 Hgraphs) as (replay & shown & _ & -> & _).
      rewrite <- apply_rule_sequence_refines in *.
      apply elem_of_app. right. apply elem_of_app. right.
      apply elem_of_app. left. rewrite Hsplit.
      by apply (apply_rule_sequence_applies _ _ _ _ _ _ ms).
    + rewrite built_graph_run by done.
      unfold robot_graph_of. rewrite apply_rule_sequence_refines, Hsplit.
      unfold spec_applyRuleSequence in *. rewrite foldl_app. cbn [foldl].
      assert (Hstep :
        spec_rewrite (rules_of cfg1)
          (foldl (spec_rewrite (rules_of cfg1)) seed_graph pre) rule_idx =
        applyRule rule (foldl (spec_rewrite (rules_of cfg1)) seed_graph pre)
          m0)
        by (unfold spec_rewrite at 1; by rewrite Hrule, Hmatch).
      by rewrite Hstep.
  - intros rules g rule_idx rule m0 ms Hrule Hmatch.
    by apply (rewrite_step_first_match rules g rule_idx rule m0 ms).
Qed.

Lemma targets_of_app (t1 t2 : list (Event (Scalar:=Scalar))) :
  targets_of (t1 ++ t2) = targets_of t1 ++ targets_of t2.
Proof. apply omap_app. Qed.

Lemma create_rules_no_targets (rule_graphs : list Graph) :
  targets_of (events (create_rules (Scalar:=Scalar) rule_graphs)) = [].
Proof.
  induction rule_graphs as [|g gs IH]; [done|].
  cbn [create_rules]. io_unfold. rewrite !targets_of_app, IH. done.
Qed.

Lemma rewrite_step_no_targets (rules : list Rule) g rule_idx :
  targets_of (events (rewrite_step (Scalar:=Scalar) rules g rule_idx)) = [].
Proof.
  unfold rewrite_step.
  destruct (rules !! N.to_nat rule_idx) as [rule|]; [|done].
  by destruct (findMatches (lhs_ rule) g).
Qed.

Lemma apply_rule_sequence_no_targets (rules : list Rule) g sequence :
  targets_of (events (apply_rule_sequence (Scalar:=Scalar) rules g sequence))
  = [].
Proof.
  revert g; induction sequence as [|idx rest IH]; intros g; [done|].
  cbn [apply_rule_sequence]. io_unfold.
  by rewrite targets_of_app, rewrite_step_no_targets, IH.
Qed.

Lemma save_snapshot_no_targets (path : string) (error : N) :
  targets_of (events (save_snapshot (Scalar:=Scalar) path error)) = [].
Proof.
  unfold save_snapshot. destruct (decide (path = "")); [done|].
  io_unfold. by destruct (error =? 0)%N.
Qed.

(** The targets that are set in bounds are columns of the matrix. *)
Lemma targets_in_bounds (m : list (list Scalar)) (t : list Event) :
  Forall (target_in_bounds m) t ->
  Forall (fun target => target ∈ m) (targets_of t).
Proof.
  induction 1 as [|e t He _ IH]; [constructor|].
  destruct e; try exact IH. cbn. constructor; [|exact IH].
  destruct He as [_ He]. by eapply list_elem_of_lookup_2.
Qed.

(** C9. Without the optimize flag, a run that found graphs in its file
    ends with the control plan still the zero matrix of [dof_count]
    rows and [episode_len] columns and with the replay buffer still empty,
    and every joint target that the run sets, which can only be in the
    viewer, is the zero vector. *)
Theorem no_optim_zero_plan (inp : Inputs) (cfg : Config) :
  parse_cli inp = Parsed cfg ->
  optim cfg = false ->
  loadGraphs (graph_file cfg) <> [] ->
  let zero := replicate (dof_count_of cfg) s_zero in
  (exists f,
      value (main inp) = Exited 0 (Some f) /\
      input_sequence (fin_vars f) = replicate episode_len zero /\
      replay_obs (fin_vars f) = [] /\
      replay_returns (fin_vars f) = []) /\
  Forall (fun target => target = zero) (targets_of (events (main inp))).
Proof.
  intros Hparse Hoptim Hgraphs. cbn zeta.
  unfold main. rewrite Hparse.
  destruct (run_eq cfg inp Hgraphs) as (replay & shown & Hv & He & Hshown).
  assert (Hopt : optimization cfg inp = ret (vars_before cfg)).
  { unfold optimization, optimize. by rewrite Hoptim. }
  rewrite Hopt in Hv, He, Hshown. rewrite value_ret in Hv, Hshown.
  split.
  - eexists. split; [exact Hv|]. done.
  - rewrite He, events_ret. rewrite !targets_of_app.
    rewrite create_rules_no_targets, apply_rule_sequence_no_targets,
      save_snapshot_no_targets.
    cbn [targets_of omap app].
    eapply List.Forall_impl; [|apply (targets_in_bounds _ _ Hshown)].
    intros target Hin. cbn in Hin.
    by apply elem_of_replicate in Hin as [-> _].
Qed.

End MainFacts.

(** * Further properties of the code *)

(** ** Rules and rewriting *)

Section RewritingMore.
Context {Scalar : Type} `{GG : GraphGrammar}.

Lemma applications_app (t1 t2 : list (Event (Scalar:=Scalar))) :
  applications (t1 ++ t2) = applications t1 ++ applications t2.
Proof. apply omap_app. Qed.

(** X1. The rules are made from the graphs of the file one by one and in
    their order: rule number [i] is the rule of graph number [i], there
    are as many rules as graphs, and the conversion is called once per
    graph, in the order of the file. *)
Theorem rules_follow_graphs (rule_graphs : list Graph) :
  let made := create_rules (Scalar:=Scalar) rule_graphs in
  length (value made) = length rule_graphs /\
  (forall i, value made !! i = createRuleFromGraph <$> rule_graphs !! i) /\
  events made = map CreateRuleFromGraph rule_graphs.
Proof.
  cbn zeta. split; [|split].
  - by rewrite create_rules_value, length_map.
  - intros i. by rewrite create_rules_value, list_lookup_fmap.
  - induction rule_graphs as [|g gs IH]; [done|].
    cbn [create_rules map]. io_unfold. by rewrite IH, app_nil_r.
Qed.

(** X2. A rule is only ever applied at the first match that the matcher
    returned for the left-hand side of that rule on the graph it is
    applied to, and the rule is one of the rule set. *)
Theorem applications_at_first_match (rules : list Rule) (g : Graph)
    (sequence : list N) (rule : Rule) (target : Graph) (m : GraphMapping) :
  (rule, target, m)
    ∈ applications (events (apply_rule_sequence (Scalar:=Scalar) rules g
                              sequence)) ->
  rule ∈ rules /\ head (findMatches (lhs_ rule) target) = Some m.
Proof.
  revert g; induction sequence as [|idx rest IH]; intros g.
  - intros Hin. by apply elem_of_nil in Hin.
  - cbn [apply_rule_sequence]. io_unfold.
    rewrite applications_app, elem_of_app. intros [Hin|Hin]; [|by eapply IH].
    clear IH. unfold rewrite_step in Hin.
    destruct (rules !! N.to_nat idx) as [r|] eqn:Hr;
      [|by apply elem_of_nil in Hin].
    destruct (findMatches (lhs_ r) g) as [|m0 ms] eqn:Hm;
      [by apply elem_of_nil in Hin|].
    apply list_elem_of_singleton in Hin. injection Hin as -> -> ->.
    split; [by eapply list_elem_of_lookup_2|]. by rewrite Hm.
Qed.

(** X3. A rule sequence all of whose indices are out of range does
    nothing at all: the graph is returned as it was, and the matcher is
    not called. *)
Theorem out_of_range_sequence (rules : list Rule) (g : Graph)
    (sequence : list N) :
  Forall (fun idx => (N.of_nat (length rules) <= idx)%N) sequence ->
  apply_rule_sequence (Scalar:=Scalar) rules g sequence = (g, []).
Proof.
  induction 1 as [|idx rest Hidx _ IH]; [done|].
  cbn [apply_rule_sequence].
  rewrite rewrite_step_out_of_range by done.
  apply io_eq; io_unfold; by rewrite IH.
Qed.

(** X4. Rewriting by a sequence that is the concatenation of two is
    rewriting by the first and then, from the graph reached, by the
    second: the same final graph and the same calls in the same order. *)
Theorem apply_rule_sequence_concat (rules : list Rule) (g : Graph)
    (pre post : list N) :
  apply_rule_sequence (Scalar:=Scalar) rules g (pre ++ post) =
  bind (apply_rule_sequence rules g pre)
       (fun g' => apply_rule_sequence rules g' post).
Proof.
  revert g; induction pre as [|idx pre IH]; intros g.
  - cbn [app apply_rule_sequence]. apply io_eq; by io_unfold.
  - cbn [app apply_rule_sequence].
    apply io_eq; io_unfold; rewrite IH; io_unfold; [done|].
    by rewrite app_assoc.
Qed.

End RewritingMore.

(** ** Counting the events of an episode *)

Section CountingFacts.
Context {Scalar : Type} `{SO : ScalarOps Scalar} `{MC : !MainConstants Scalar}.
Context `{GG : GraphGrammar}.
Context `{SP : !SimulationPort Scalar}.
Context `{VE : !ValueEstimator Scalar Dyn}.
Context `{OP : !Optimizer Scalar Estimator}.
Context `{RG : RandomGenerator}.
Implicit Types (kind : Event (Scalar:=Scalar) -> bool).

Lemma count_events_app kind (t1 t2 : list Event) :
  count_events kind (t1 ++ t2) =
  (count_events kind t1 + count_events kind t2)%nat.
Proof. unfold count_events. by rewrite List.filter_app, length_app. Qed.

Lemma count_events_none kind (t : list Event) :
  Forall (fun e => kind e = false) t -> count_events kind t = O.
Proof. intros Hnone. unfold count_events. by rewrite filter_none. Qed.

(** A loop whose every round has [c] events of a kind, as long as an
    invariant holds, has [n * c] of them after [n] rounds. *)
Lemma for_loop_count {St} (I : St -> Prop) kind (c : nat)
    (body : nat -> St -> M Event St) :
  (forall j s, I s ->
     I (value (body j s)) /\ count_events kind (events (body j s)) = c) ->
  forall n lo s, I s ->
    I (value (for_loop n lo body s)) /\
    count_events kind (events (for_loop n lo body s)) = (n * c)%nat.
Proof.
  intros Hbody n; induction n as [|n IH]; intros lo s Hs.
  - by split.
  - cbn [for_loop]. io_unfold. rewrite count_events_app.
    destruct (Hbody lo s Hs) as [Hv ->].
    destruct (IH (S lo) _ Hv) as [Hv' ->]. split; [done|]. lia.
Qed.

Lemma physics_loop_count kind (c : nat) robot_idx j n lo (st : Lockstep) :
  (forall target d,
      count_events kind (physics_events robot_idx j target d) = c) ->
  count_events kind (events (for_loop n lo (physics_step robot_idx j) st))
  = (n * c)%nat.
Proof.
  intros Hc.
  apply (for_loop_count (fun _ => True) kind c (physics_step robot_idx j));
    [|done].
  intros i s _. split; [done|]. rewrite physics_step_eq. apply Hc.
Qed.

Lemma physics_loop_counts robot_idx j n lo (st : Lockstep) :
  let t := events (for_loop n lo (physics_step robot_idx j) st) in
  count_events is_step t = n /\ count_events is_set_target t = n /\
  count_events is_update t = O /\ count_events is_observation t = O.
Proof.
  cbn zeta.
  rewrite (physics_loop_count is_step 1), (physics_loop_count is_set_target 1),
    (physics_loop_count is_update 0), (physics_loop_count is_observation 0)
    by done.
  repeat split; lia.
Qed.

Lemma control_step_events (ve : Estimator) robot_idx j (st : Lockstep) :
  exists st1,
    events (control_step ve robot_idx j st) =
    [Update; Advance 1;
     GetObservation j (getObservation ve (sim_dyn (ls_sim st)))]
      ++ events (for_loop interval 0 (physics_step robot_idx j) st1).
Proof. eexists. unfold control_step, observe. by io_unfold. Qed.

Lemma control_step_counts (ve : Estimator) robot_idx j (st : Lockstep) :
  let t := events (control_step ve robot_idx j st) in
  count_events is_step t = interval /\
  count_events is_set_target t = interval /\
  count_events is_update t = 1%nat /\
  count_events is_observation t = 1%nat.
Proof.
  cbn zeta. destruct (control_step_events ve robot_idx j st) as [st1 ->].
  destruct (physics_loop_counts robot_idx j interval 0 st1)
    as (Hs & Ht & Hu & Ho).
  rewrite !count_events_app, Hs, Ht, Hu, Ho. by repeat split.
Qed.

Lemma lockstep_count kind (c : nat) (ve : Estimator) robot_idx optimizer sim
    (v : Vars) :
  (forall j st,
      count_events kind (events (control_step ve robot_idx j st)) = c) ->
  count_events kind (events (lockstep ve robot_idx optimizer sim v))
  = (length (input_sequence v) * c)%nat.
Proof.
  intros Hc. unfold lockstep.
  apply (for_loop_count (fun _ => True) kind c (control_step ve robot_idx));
    [|done].
  intros i s _. by split.
Qed.

Lemma lockstep_counts (ve : Estimator) robot_idx optimizer sim (v : Vars) :
  let t := events (lockstep ve robot_idx optimizer sim v) in
  let cols := length (input_sequence v) in
  count_events is_step t = (cols * interval)%nat /\
  count_events is_set_target t = (cols * interval)%nat /\
  count_events is_update t = cols /\
  count_events is_observation t = cols.
Proof.
  cbn zeta.
  rewrite (lockstep_count is_step interval),
    (lockstep_count is_set_target interval),
    (lockstep_count is_update 1), (lockstep_count is_observation 1);
    try (intros j st; by destruct (control_step_counts ve robot_idx j st)
                           as (? & ? & ? & ?)).
  repeat split; lia.
Qed.

Lemma warmup_count (ve : Estimator) (params : OptimizerParams Scalar) :
  count_events is_update (events (warmup ve params)) = warmup_updates.
Proof.
  unfold warmup.
  destruct (for_loop_count (fun _ => True) is_update 1 (warmup_step ve)
              (fun i s _ => conj I eq_refl) warmup_updates 0
              (new_optimizer params) I) as [_ ->]. lia.
Qed.

Lemma warmup_other kind (ve : Estimator) (params : OptimizerParams Scalar) :
  kind Update = false -> count_events kind (events (warmup ve params)) = O.
Proof.
  intros Hk. apply count_events_none.
  eapply List.Forall_impl; [|apply warmup_events]. by intros ? ->.
Qed.

Lemma lockstep_other kind (ve : Estimator) robot_idx optimizer sim (v : Vars) :
  (forall e, lockstep_event e = true -> kind e = false) ->
  count_events kind (events (lockstep ve robot_idx optimizer sim v)) = O.
Proof.
  intros Hk. apply count_events_none.
  destruct (lockstep_kept_loop ve robot_idx optimizer sim v) as [_ Hev].
  eapply List.Forall_impl; [|exact Hev]. exact Hk.
Qed.

(** The events of one episode, counted by kind. *)
Lemma episode_counts robot_idx dof_count obs_size thread_count k (v : Vars) :
  let t := events (episode robot_idx dof_count obs_size thread_count k v) in
  let cols := length (input_sequence v) in
  count_events is_step t = (cols * interval)%nat /\
  count_events is_set_target t = (cols * interval)%nat /\
  count_events is_update t = (warmup_updates + cols)%nat /\
  count_events is_observation t = (cols + 1)%nat /\
  count_events is_save t = 1%nat /\
  count_events is_restore t = 1%nat /\
  count_events is_train t = 1%nat.
Proof.
  cbn zeta. rewrite episode_eq. cbn zeta. io_pair.
  match goal with
  | |- context [lockstep ?e ?idx ?o ?s v] =>
      destruct (lockstep_counts e idx o s v) as (Hs & Ht & Hu & Ho)
  end.
  rewrite !count_events_app, Hs, Ht, Hu, Ho, warmup_count.
  rewrite !warmup_other by done.
  rewrite !lockstep_other by (by intros []).
  cbn. repeat split; lia.
Qed.

Lemma optimization_loop (cfg : Config) (inp : Inputs) :
  optimization cfg inp =
  for_loop (episode_count_of cfg) 0
    (episode (robot_idx_of cfg) (dof_count_of cfg)
       (getObservationSize make_estimator)
       (thread_count_of (jobs cfg) (hardware_concurrency inp)))
    (vars_before cfg).
Proof.
  unfold optimization, optimize, episode_count_of. by destruct (optim cfg).
Qed.

Lemma optimization_count kind (c : nat) (cfg : Config) (inp : Inputs) :
  (forall robot_idx dof_count obs_size thread_count k v,
      vars_sized v ->
      count_events kind
        (events (episode robot_idx dof_count obs_size thread_count k v)) = c) ->
  count_events kind (events (optimization cfg inp))
  = (episode_count_of cfg * c)%nat.
Proof.
  intros Hc. rewrite optimization_loop.
  apply (for_loop_count vars_sized kind c).
  - intros k v Hv. split; [by apply episode_sized|by apply Hc].
  - apply initial_vars_sized.
Qed.

Lemma target_before_step_app (t1 t2 : list (Event (Scalar:=Scalar))) :
  target_before_step t1 -> target_before_step t2 ->
  target_before_step (t1 ++ t2).
Proof.
  intros H1 H2 n Hn.
  destruct (decide (n < length t1)%nat) as [Hlt|Hge].
  - rewrite lookup_app_l in Hn by done.
    destruct (H1 n Hn) as (k & robot_idx & j & target & -> & Hk).
    exists k, robot_idx, j, target. split; [done|].
    rewrite lookup_app_l by lia. done.
  - rewrite lookup_app_r in Hn by lia.
    destruct (H2 _ Hn) as (k & robot_idx & j & target & Hnk & Hk).
    exists (length t1 + k)%nat, robot_idx, j, target. split; [lia|].
    rewrite lookup_app_r by lia.
    by replace (length t1 + k - length t1)%nat with k by lia.
Qed.

Lemma target_before_step_quiet (t : list (Event (Scalar:=Scalar))) :
  Forall (fun e => is_step e = false) t -> target_before_step t.
Proof.
  intros Hquiet n Hn.
  by pose proof (proj1 (Forall_lookup _ _) Hquiet n Step Hn).
Qed.

Lemma for_loop_target_before_step {St}
    (body : nat -> St -> M (Event (Scalar:=Scalar)) St) :
  (forall j s, target_before_step (events (body j s))) ->
  forall n lo s, target_before_step (events (for_loop n lo body s)).
Proof.
  intros Hbody n. induction n as [|n IH]; intros lo s.
  - by apply target_before_step_quiet.
  - cbn [for_loop]. io_unfold. by apply target_before_step_app.
Qed.

Lemma lockstep_target_before_step (ve : Estimator) robot_idx optimizer sim
    (v : Vars) :
  target_before_step (events (lockstep ve robot_idx optimizer sim v)).
Proof.
  unfold lockstep. apply for_loop_target_before_step. intros j st.
  destruct (control_step_events ve robot_idx j st) as [st1 ->].
  apply target_before_step_app.
  - apply target_before_step_quiet. by repeat constructor.
  - apply for_loop_target_before_step. intros i s.
    rewrite physics_step_eq. cbn zeta. io_pair. unfold physics_events.
    intros [|[|[|n]]] Hn; try done.
    by exists 0%nat, robot_idx, (Z.of_nat j), (ls_input_sequence s !!! j).
Qed.

Lemma episode_target_before_step robot_idx dof_count obs_size thread_count k
    (v : Vars) :
  target_before_step
    (events (episode robot_idx dof_count obs_size thread_count k v)).
Proof.
  rewrite episode_eq. cbn zeta. io_pair.
  repeat match goal with
         | |- target_before_step (_ ++ _) => apply target_before_step_app
         end;
    first [ apply lockstep_target_before_step
          | apply target_before_step_quiet;
            first [ by repeat constructor
                  | eapply List.Forall_impl; [|apply warmup_events];
                    by intros ? -> ] ].
Qed.

(** X5. The episodes of a run, counted: with [n] the number of episodes
    (none without the optimize flag), the main simulation takes
    [n * episode_len * interval] physics steps and as many joint targets
    are set; the optimizer is updated [warmup_updates + episode_len]
    times per episode; [episode_len + 1] observations are taken per
    episode; the state is saved once, restored once and the estimator
    trained once per episode; and every physics step comes right after a
    joint target was set, the event before it being that call. *)
Theorem optimization_event_counts (cfg : Config) (inp : Inputs) :
  let t := events (optimization cfg inp) in
  let n := episode_count_of cfg in
  count_events is_step t = (n * (episode_len * interval))%nat /\
  count_events is_set_target t = (n * (episode_len * interval))%nat /\
  count_events is_update t = (n * (warmup_updates + episode_len))%nat /\
  count_events is_observation t = (n * (episode_len + 1))%nat /\
  count_events is_save t = n /\
  count_events is_restore t = n /\
  count_events is_train t = n /\
  target_before_step t.
Proof.
  cbn zeta.
  assert (Hpaired : target_before_step (events (optimization cfg inp))).
  { rewrite optimization_loop. apply for_loop_target_before_step.
    intros k v. apply episode_target_before_step. }
  rewrite (optimization_count is_step (episode_len * interval)),
    (optimization_count is_set_target (episode_len * interval)),
    (optimization_count is_update (warmup_updates + episode_len)),
    (optimization_count is_observation (episode_len + 1)),
    (optimization_count is_save 1), (optimization_count is_restore 1),
    (optimization_count is_train 1);
    try (intros robot_idx dof_count obs_size thread_count k v (Hcols & _);
         destruct (episode_counts robot_idx dof_count obs_size thread_count
                     k v) as (? & ? & ? & ? & ? & ? & ?);
         congruence).
  repeat (split; [lia|]). exact Hpaired.
Qed.

End CountingFacts.

(** ** The run as a whole *)

Section MainMore.
Context {Scalar : Type} `{SO : ScalarOps Scalar} `{MC : !MainConstants Scalar}.
Context `{GG : GraphGrammar}.
Context `{SP : !SimulationPort Scalar}.
Context `{VE : !ValueEstimator Scalar Dyn}.
Context `{OP : !Optimizer Scalar Estimator}.
Context `{RG : RandomGenerator}.

(** X6. The exit code of [main] depends on the command line and the
    graph file alone: 1 for a parse error, a missing required argument or
    a file without graphs, 0 otherwise.  Neither the optimization, nor a
    failure to encode the snapshot, nor the viewer changes it; and [main]
    gets to the end of its work exactly when the command line parsed and
    the file had graphs. *)
Theorem exit_code_by_input (inp : Inputs) :
  exists state,
    value (main (Scalar:=Scalar) inp) = Exited (exit_code_of inp) state /\
    (is_Some state <->
     exists cfg, parse_cli inp = Parsed cfg /\
                 loadGraphs (graph_file cfg) <> []).
Proof.
  unfold main, exit_code_of.
  destruct (parse_cli inp) as [cfg|what| |what|what];
    try (exists None; split; [done|]; split;
         [by intros [? ?] | by intros (? & ? & _)]).
  destruct (loadGraphs (graph_file cfg)) as [|g gs] eqn:Hload.
  - exists None. unfold run. rewrite Hload. split; [done|]. split.
    + by intros [? ?].
    + intros (cfg' & [= <-] & Hne). by rewrite Hload in Hne.
  - destruct (run_eq cfg inp) as (replay & shown & -> & _); [congruence|].
    eexists. split; [reflexivity|]. split; [|by eexists].
    intros _. exists cfg. split; [done|congruence].
Qed.

Lemma wrap_int_high (z : Z) :
  2 ^ 31 <= z < 2 ^ 32 -> wrap_int z = z - 2 ^ 32.
Proof.
  intros Hz. unfold wrap_int.
  change (2 ^ 31) with 2147483648 in *. change (2 ^ 32) with 4294967296 in *.
  replace (z + 2147483648) with ((z - 2147483648) + 1 * 4294967296) by lia.
  rewrite Z.mod_add by lia. rewrite Z.mod_small; lia.
Qed.

(** X7. The number of episodes is the episode count of the command line
    converted to [int]: with the optimize flag, a count below 2^31 runs
    that many episodes, each training the estimator once, and a count from
    2^31 on, which the conversion makes negative, runs none. *)
Theorem episodes_run (cfg : Config) (inp : Inputs) :
  Z.of_N (episodes cfg) < 2 ^ 32 ->
  count_events is_train (events (optimization cfg inp)) =
  (if optim cfg && bool_decide (Z.of_N (episodes cfg) < 2 ^ 31)
   then N.to_nat (episodes cfg) else O) /\
  (optim cfg = false \/ 2 ^ 31 <= Z.of_N (episodes cfg) ->
   optimization cfg inp = ret (vars_before cfg)).
Proof.
  intros Hrange.
  assert (Hcount : episode_count_of cfg =
            if optim cfg && bool_decide (Z.of_N (episodes cfg) < 2 ^ 31)
            then N.to_nat (episodes cfg) else O).
  { unfold episode_count_of. destruct (optim cfg); [|done]. cbn [andb].
    case_bool_decide as Hsmall.
    - rewrite wrap_int_small; [lia|].
      change (2 ^ 31) with 2147483648 in *. lia.
    - rewrite wrap_int_high by lia.
      change (2 ^ 31) with 2147483648 in *.
      change (2 ^ 32) with 4294967296 in *. lia. }
  split.
  - rewrite (optimization_count is_train 1), Hcount; [lia|].
    intros robot_idx dof_count obs_size thread_count k v _.
    by destruct (episode_counts robot_idx dof_count obs_size thread_count
                   k v) as (_ & _ & _ & _ & _ & _ & ?).
  - intros Hnone. rewrite optimization_loop, Hcount.
    destruct Hnone as [->|Hbig]; [done|].
    rewrite bool_decide_eq_false_2 by lia. by rewrite andb_false_r.
Qed.

End MainMore.

(** ** The optimizers of a run *)

Section OptimizerFacts.
Context {Scalar : Type} `{SO : ScalarOps Scalar} `{MC : !MainConstants Scalar}.
Context `{GG : GraphGrammar}.
Context `{SP : !SimulationPort Scalar}.
Context `{VE : !ValueEstimator Scalar Dyn}.
Context `{OP : !Optimizer Scalar Estimator}.
Context `{RG : RandomGenerator}.

Lemma new_optimizers_app (t1 t2 : list (Event (Scalar:=Scalar))) :
  new_optimizers (t1 ++ t2) = new_optimizers t1 ++ new_optimizers t2.
Proof. apply omap_app. Qed.

Lemma new_optimizers_none (t : list (Event (Scalar:=Scalar))) :
  Forall (fun e => lockstep_event e = true) t -> new_optimizers t = [].
Proof.
  induction 1 as [|e t He _ IH]; [done|]. by destruct e.
Qed.

Lemma episode_new_optimizer robot_idx dof_count obs_size thread_count k
    (v : Vars) :
  new_optimizers
    (events (episode robot_idx dof_count obs_size thread_count k v)) =
  [optimizer_params dof_count thread_count (generate (generator v)).1] /\
  generator (value (episode robot_idx dof_count obs_size thread_count k v)) =
  (generate (generator v)).2.
Proof.
  rewrite episode_eq. cbn zeta. io_pair. split; [|done].
  match goal with
  | |- context [lockstep ?e ?idx ?o ?s v] =>
      destruct (lockstep_kept_loop e idx o s v) as [_ Hev]
  end.
  rewrite !new_optimizers_app.
  match goal with
  | |- context [new_optimizers (events (lockstep ?e ?idx ?o ?s v))] =>
      rewrite (new_optimizers_none (events (lockstep e idx o s v))) by done
  end.
  match goal with
  | |- context [new_optimizers (events (warmup ?e ?p))] =>
      rewrite (new_optimizers_none (events (warmup e p))); [done|]
  end.
  eapply List.Forall_impl; [|apply warmup_events]. by intros ? ->.
Qed.

Lemma episodes_new_optimizers robot_idx dof_count obs_size thread_count n lo
    (v : Vars) :
  new_optimizers
    (events (for_loop n lo
               (episode robot_idx dof_count obs_size thread_count) v)) =
  map (optimizer_params dof_count thread_count) (draws n (generator v)).
Proof.
  revert lo v; induction n as [|n IH]; intros lo v; [done|].
  cbn [for_loop draws map]. io_unfold. rewrite new_optimizers_app, IH.
  destruct (episode_new_optimizer robot_idx dof_count obs_size thread_count
              lo v) as [-> ->]. done.
Qed.

(** X8. Every episode constructs one optimizer.  Its seed is the next
    number of the generator that was seeded with the seed of the command
    line, which is used for nothing else; its thread count is the number
    of jobs of the command line, or, when that is zero, the number of
    hardware threads and at least one; the other parameters are the
    constants of [main] and the robot's degrees of freedom. *)
Theorem optimizers_constructed (cfg : Config) (inp : Inputs) :
  let thread_count := thread_count_of (jobs cfg) (hardware_concurrency inp) in
  new_optimizers (events (optimization cfg inp)) =
    map (optimizer_params (dof_count_of cfg) thread_count)
      (draws (episode_count_of cfg) (mt19937 (seed cfg))) /\
  (jobs cfg <> 0%N -> thread_count = jobs cfg) /\
  (jobs cfg = 0%N ->
   thread_count = N.max (hardware_concurrency inp) 1 /\
   (1 <= thread_count)%N).
Proof.
  cbn zeta. split; [|split].
  - rewrite optimization_loop. apply episodes_new_optimizers.
  - intros Hjobs. unfold thread_count_of.
    by destruct (N.eqb_spec (jobs cfg) 0).
  - intros ->. unfold thread_count_of. cbn. split; [done|lia].
Qed.

End OptimizerFacts.

(** ** The returns in closed form *)

Section ReturnsMore.
Context {Scalar : Type} `{SO : ScalarOps Scalar} `{MC : !MainConstants Scalar}.
Context `{GG : GraphGrammar}.
Context `{SP : !SimulationPort Scalar}.
Context `{VE : !ValueEstimator Scalar Dyn}.
Context `{OP : !Optimizer Scalar Estimator}.
Context `{RG : RandomGenerator}.

Lemma discounted_snoc (rewards : list Scalar) (r bootstrap : Scalar) :
  discounted (rewards ++ [r]) bootstrap =
  discounted rewards (s_add r (s_mul discount_factor bootstrap)).
Proof. unfold discounted. by rewrite foldr_app. Qed.

(** After the loop from [n] down, entry [t <= n] is the discounted sum of
    the rewards [t .. n - 1], closed by entry [n]. *)
Lemma returns_loop_closed n (rewards returns : list Scalar) t :
  (t <= n)%nat -> (n < length returns)%nat -> (n <= length rewards)%nat ->
  returns_loop n rewards returns !! t =
  Some (discounted (drop t (take n rewards)) (returns !!! n)).
Proof.
  revert returns; induction n as [|n IH]; intros returns Ht Hn Hr.
  - replace t with O by lia. cbn [returns_loop]. rewrite take_0, drop_0.
    by apply list_lookup_lookup_total_lt.
  - cbn [returns_loop].
    destruct (decide (t = S n)) as [->|Hne].
    + rewrite returns_loop_above by lia.
      rewrite list_lookup_insert_ne by lia.
      rewrite drop_ge by (rewrite length_take; lia).
      by apply list_lookup_lookup_total_lt.
    + rewrite IH by (rewrite ?length_insert; lia).
      rewrite list_lookup_total_insert_eq by lia.
      rewrite (take_S_r rewards n (rewards !!! n))
        by (apply list_lookup_lookup_total_lt; lia).
      rewrite drop_app_le by (rewrite length_take; lia).
      by rewrite discounted_snoc.
Qed.

(** X9. After an episode, entry [t] of [returns] is the discounted sum of
    the episode's rewards from step [t] on, closed by the estimator's
    value of the final observation: [r_t + g * (r_(t+1) + g * (... + g *
    bootstrap))], with the additions and multiplications in this order. *)
Theorem returns_discounted (robot_idx : Z) (dof_count obs_size : nat)
    (thread_count : N) (k : nat) (v : Vars) :
  vars_sized v ->
  let v' := value (episode robot_idx dof_count obs_size thread_count k v) in
  let bootstrap :=
    estimateValue (value_estimator v) (obs v' !!! episode_len) in
  forall t, (t <= episode_len)%nat ->
    returns v' !! t = Some (discounted (drop t (rewards v')) bootstrap).
Proof.
  intros (Hseq & Hobs & Hrew & Hret). cbn zeta. intros t Ht.
  rewrite episode_eq. cbn zeta.
  match goal with
  | |- context [lockstep ?ve ?idx ?o ?sim v] =>
      destruct (lockstep_kept_loop ve idx o sim v) as [(Ha & Hb & Hc & _) _];
      set (ls := value (lockstep ve idx o sim v)) in *
  end.
  io_pair. cbn [obs rewards returns].
  rewrite returns_loop_closed by (rewrite ?length_insert; lia).
  rewrite (take_ge (ls_rewards ls)) by lia.
  rewrite Hret, Nat.add_sub.
  by rewrite list_lookup_total_insert_eq by lia.
Qed.

End ReturnsMore.

(** ** What an episode records *)

Section TrajectoryFacts.
Context {Scalar : Type} `{SO : ScalarOps Scalar} `{MC : !MainConstants Scalar}.
Context `{GG : GraphGrammar}.
Context `{SP : !SimulationPort Scalar}.
Context `{VE : !ValueEstimator Scalar Dyn}.
Context `{OP : !Optimizer Scalar Estimator}.
Context `{RG : RandomGenerator}.

(** A loop invariant that may mention the round. *)
Lemma for_loop_indexed {Ev St} (I : nat -> St -> Prop)
    (body : nat -> St -> M Ev St) n :
  forall lo s,
    (forall j s', (lo <= j < lo + n)%nat -> I j s' ->
                  I (S j) (value (body j s'))) ->
    I lo s -> I (lo + n)%nat (value (for_loop n lo body s)).
Proof.
  induction n as [|n IH]; intros lo s Hbody Hs.
  - by rewrite Nat.add_0_r.
  - cbn [for_loop]. rewrite value_bind, <- Nat.add_succ_comm.
    apply IH.
    + intros j s' Hj. apply Hbody. lia.
    + apply Hbody; [lia|done].
Qed.

Lemma play_snoc robot_idx (m : list (list Scalar)) (col : list Scalar)
    (d : Dyn) :
  play robot_idx (m ++ [col]) d = hold robot_idx (play robot_idx m d) col.
Proof. unfold play. by rewrite fold_left_app. Qed.

Lemma control_step_recorded ve robot_idx d0 cols rows j (st : Lockstep) :
  (j < cols)%nat -> (cols <= rows)%nat ->
  recorded ve robot_idx d0 cols rows j st ->
  recorded ve robot_idx d0 cols rows (S j)
    (value (control_step ve robot_idx j st)).
Proof.
  intros Hj Hrows (Hseq & Hobs & Hrew & Hdyn & Hpast).
  rewrite control_step_eq by lia. cbn zeta. io_pair.
  unfold recorded.
  cbn [ls_input_sequence ls_obs ls_rewards ls_sim sim_dyn].
  rewrite !length_insert.
  set (action := input_sequence_ (update ve (ls_optimizer st)) !!! 0%nat).
  split; [done|]. split; [done|]. split; [done|]. split.
  - rewrite (take_S_r _ j action) by (apply list_lookup_insert_eq; lia).
    rewrite take_insert_ge by lia. rewrite play_snoc, <- Hdyn. done.
  - intros t Ht. cbn zeta. rewrite take_insert_ge by lia.
    destruct (decide (t = j)) as [->|Hne].
    + rewrite !list_lookup_insert_eq by lia.
      rewrite list_lookup_total_insert_eq by lia.
      by rewrite <- Hdyn.
    + rewrite !list_lookup_insert_ne by lia.
      rewrite list_lookup_total_insert_ne by lia.
      apply Hpast. lia.
Qed.

Lemma lockstep_recorded ve robot_idx optimizer sim (v : Vars) :
  length (rewards v) = length (input_sequence v) ->
  (length (input_sequence v) <= length (obs v))%nat ->
  recorded ve robot_idx (sim_dyn sim) (length (input_sequence v))
    (length (obs v)) (length (input_sequence v))
    (value (lockstep ve robot_idx optimizer sim v)).
Proof.
  intros Hrew Hobs. unfold lockstep.
  apply (for_loop_indexed
           (recorded ve robot_idx (sim_dyn sim) (length (input_sequence v))
              (length (obs v)))
           (control_step ve robot_idx) (length (input_sequence v)) 0).
  - intros j st Hj. apply control_step_recorded; lia.
  - unfold recorded.
    cbn [ls_input_sequence ls_obs ls_rewards ls_sim].
    split; [done|]. split; [done|]. split; [done|]. split; [done|].
    intros t Ht. lia.
Qed.

(** X10. What an episode records is the replay of the plan it records:
    with the columns of [input_sequence] as they are after the episode,
    observation [j] is the observation of the state that holding columns
    [0 .. j - 1], each for [interval] steps, leads to from the state in
    which the episode began (the final observation being the one after all
    columns), and reward [j] is the sum of the objective over the
    [interval] steps of column [j] from there. *)
Theorem episode_records_plan (robot_idx : Z) (dof_count obs_size : nat)
    (thread_count : N) (k : nat) (v : Vars) :
  vars_sized v ->
  let v' := value (episode robot_idx dof_count obs_size thread_count k v) in
  let m := input_sequence v' in
  let d0 := sim_dyn (main_sim v) in
  let ve := value_estimator v in
  length m = episode_len /\
  (forall j, (j <= episode_len)%nat ->
     obs v' !! j = Some (getObservation ve (play robot_idx (take j m) d0))) /\
  (forall j, (j < episode_len)%nat ->
     rewards v' !! j =
     Some (step_reward robot_idx (m !!! j) (play robot_idx (take j m) d0))).
Proof.
  intros (Hseq & Hobs & Hrew & Hret). cbn zeta.
  rewrite episode_eq. cbn zeta. io_pair.
  cbn [input_sequence obs rewards].
  match goal with
  | |- context [lockstep ?ve ?idx ?o ?sim v] =>
      destruct (lockstep_recorded ve idx o sim v)
        as (Ha & Hb & Hc & Hdyn & Hpast); [lia|lia|];
      set (ls := value (lockstep ve idx o sim v)) in *
  end.
  cbn [saveState sim_dyn] in Hdyn, Hpast.
  rewrite Hseq in *. rewrite Hobs in Hb.
  split; [done|]. split.
  - intros j Hj. destruct (decide (j = episode_len)) as [->|Hne].
    + rewrite list_lookup_insert_eq by lia. by rewrite Hdyn.
    + rewrite list_lookup_insert_ne by lia. apply Hpast. lia.
  - intros j Hj. by apply Hpast.
Qed.

End TrajectoryFacts.

(** ** The viewer's loop, step by step *)

Section ViewerFacts.
Context {Scalar : Type} `{SO : ScalarOps Scalar} `{MC : !MainConstants Scalar}.
Context `{GG : GraphGrammar}.
Context `{SP : !SimulationPort Scalar}.
Context `{VE : !ValueEstimator Scalar Dyn}.
Context `{OP : !Optimizer Scalar Estimator}.
Context `{RG : RandomGenerator}.

(** One round of the inner loop from counters in range, written out. *)
Lemma render_substep_eq (robot_idx : Z) (m : list (list Scalar))
    (st : Replay) :
  Z.of_nat (length m) < 2 ^ 31 ->
  0 <= rp_i st < Z.of_nat interval ->
  0 <= rp_j st < Z.of_nat (length m) ->
  let target := m !!! Z.to_nat (rp_j st) in
  let sim := on_dyn step
               (on_dyn (setJointTargetPositions robot_idx target) (rp_sim st))
  in
  let moved := [SetJointTargetPositions robot_idx (rp_j st) target; Step;
                ViewerUpdate] in
  render_substep robot_idx m st =
  if decide (rp_i st + 1 < Z.of_nat interval)
  then (Some {| rp_i := rp_i st + 1; rp_j := rp_j st; rp_sim := sim |}, moved)
  else if decide (rp_j st + 1 < Z.of_nat (length m))
  then (Some {| rp_i := 0; rp_j := rp_j st + 1; rp_sim := sim |}, moved)
  else (Some {| rp_i := 0; rp_j := 0; rp_sim := restoreState sim |},
        moved ++ [RestoreState]).
Proof.
  intros Hcols Hi Hj. cbn zeta.
  assert (Hint : Z.of_nat interval = 4) by reflexivity.
  change (2 ^ 31) with 2147483648 in Hcols.
  unfold render_substep, col.
  destruct (decide (0 <= rp_j st < Z.of_nat (length m))) as [_|]; [|lia].
  destruct (lookup_lt_is_Some_2 m (Z.to_nat (rp_j st))) as [target Htarget];
    [lia|].
  rewrite Htarget, (list_lookup_total_correct _ _ _ Htarget).
  unfold sim_setJointTargetPositions, sim_step, sim_restoreState.
  rewrite !wrap_int_small by (change (2 ^ 31) with 2147483648; lia).
  destruct (decide (rp_i st + 1 < Z.of_nat interval)) as [Hi'|Hi'].
  - destruct (decide (Z.of_nat interval <= rp_i st + 1)); [lia|].
    destruct (decide (Z.of_nat (length m) <= rp_j st)); [lia|].
    apply io_eq; by io_unfold.
  - destruct (decide (Z.of_nat interval <= rp_i st + 1)); [|lia].
    destruct (decide (rp_j st + 1 < Z.of_nat (length m))) as [Hj'|Hj'].
    + destruct (decide (Z.of_nat (length m) <= rp_j st + 1)); [lia|].
      apply io_eq; by io_unfold.
    + destruct (decide (Z.of_nat (length m) <= rp_j st + 1)); [|lia].
      apply io_eq; by io_unfold.
Qed.

(** Running [a + b] rounds is running [a] rounds and then [b]. *)
Lemma render_substeps_add (a b : nat) (robot_idx : Z)
    (m : list (list Scalar)) (st : Replay) :
  render_substeps (a + b) robot_idx m st =
  bind (render_substeps a robot_idx m st)
       (fun r => match r with
                 | Some st' => render_substeps b robot_idx m st'
                 | None => ret None
                 end).
Proof.
  revert st; induction a as [|a IH]; intros st.
  - cbn [Nat.add render_substeps]. apply io_eq; by io_unfold.
  - cbn [Nat.add render_substeps].
    apply io_eq; io_unfold;
      destruct (value (render_substep robot_idx m st)) as [st'|];
      rewrite ?IH; io_unfold; rewrite ?app_nil_r, ?app_assoc; done.
Qed.

Lemma render_substeps_snoc (n : nat) (robot_idx : Z)
    (m : list (list Scalar)) (st : Replay) :
  render_substeps (S n) robot_idx m st =
  bind (render_substeps n robot_idx m st)
       (fun r => match r with
                 | Some st' => render_substeps 1 robot_idx m st'
                 | None => ret None
                 end).
Proof. rewrite <- render_substeps_add. f_equal. lia. Qed.

Lemma held_states_last_S (k : nat) robot_idx (target : list Scalar)
    (d : Dyn) :
  List.last (held_states (S k) robot_idx target d) d =
  step (setJointTargetPositions robot_idx target
          (List.last (held_states k robot_idx target d) d)).
Proof.
  revert d; induction k as [|k IH]; intros d; [done|].
  change (held_states (S (S k)) robot_idx target d)
    with (step (setJointTargetPositions robot_idx target d)
          :: held_states (S k) robot_idx target
               (step (setJointTargetPositions robot_idx target d))).
  rewrite last_cons_default, IH.
  change (held_states (S k) robot_idx target d)
    with (step (setJointTargetPositions robot_idx target d)
          :: held_states k robot_idx target
               (step (setJointTargetPositions robot_idx target d))).
  by rewrite last_cons_default.
Qed.

Lemma hold_last (k : nat) robot_idx (target : list Scalar) (d : Dyn) :
  S k = interval ->
  hold robot_idx d target =
  step (setJointTargetPositions robot_idx target
          (List.last (held_states k robot_idx target d) d)).
Proof. intros Hk. unfold hold. rewrite <- Hk. apply held_states_last_S. Qed.

Lemma interval_divmod (n : nat) :
  n = (interval * (n / interval) + n mod interval)%nat /\
  (n mod interval < interval)%nat.
Proof.
  split; [apply Nat.div_mod_eq|]. by apply Nat.mod_upper_bound.
Qed.

Lemma succ_same_column (n : nat) :
  (n mod interval + 1 < interval)%nat ->
  (S n / interval = n / interval)%nat /\
  (S n mod interval = n mod interval + 1)%nat.
Proof.
  intros Hlt. destruct (interval_divmod n) as [Hn Hr]. split; symmetry.
  - apply (Nat.div_unique _ interval _ (n mod interval + 1)); lia.
  - apply (Nat.mod_unique _ interval (n / interval)); lia.
Qed.

Lemma succ_next_column (n : nat) :
  (n mod interval + 1 = interval)%nat ->
  (S n / interval = n / interval + 1)%nat /\ (S n mod interval = 0)%nat.
Proof.
  intros Heq. destruct (interval_divmod n) as [Hn Hr]. split; symmetry.
  - apply (Nat.div_unique _ interval _ 0); [unfold interval|]; lia.
  - apply (Nat.mod_unique _ interval (n / interval + 1));
      [unfold interval|]; lia.
Qed.

(** The viewer's first pass through the plan. *)
Lemma first_pass (n : nat) (robot_idx : Z) (m : list (list Scalar))
    (sim : Simulation Dyn) :
  Z.of_nat (length m) < 2 ^ 31 ->
  (n < interval * length m)%nat ->
  exists st,
    value (render_substeps n robot_idx m (replay_start sim)) = Some st /\
    rp_i st = Z.of_nat (n mod interval) /\
    rp_j st = Z.of_nat (n / interval) /\
    sim_dyn (rp_sim st) = play_steps robot_idx m n (sim_dyn sim) /\
    sim_saved (rp_sim st) = sim_saved sim /\
    count_events is_restore
      (events (render_substeps n robot_idx m (replay_start sim))) = O.
Proof.
  intros Hcols. induction n as [|n IH]; intros Hn.
  - exists (replay_start sim). repeat split; reflexivity.
  - destruct IH as (st & Hv & Hi & Hj & Hdyn & Hsaved & Hcount); [lia|].
    destruct (interval_divmod n) as [Hdiv Hmod].
    assert (Hcol : (n / interval < length m)%nat).
    { clear -Hdiv Hn. unfold interval in *. lia. }
    rewrite render_substeps_snoc. io_unfold. rewrite Hv.
    cbn [render_substeps]. io_unfold.
    rewrite render_substep_eq by (rewrite ?Hi, ?Hj; lia).
    cbn zeta. rewrite Hi, Hj, Nat2Z.id.
    destruct (decide (Z.of_nat (n mod interval) + 1 < Z.of_nat interval))
      as [Hsame|Hnext].
    + destruct (succ_same_column n) as [Hq Hr]; [lia|].
      eexists. io_pair. split; [reflexivity|].
      cbn [rp_i rp_j rp_sim on_dyn sim_dyn sim_saved].
      split; [lia|]. split; [lia|]. split; [|split; [done|]].
      * unfold play_steps. rewrite Hq, Hr, Nat.add_1_r, held_states_last_S.
        by rewrite Hdyn.
      * rewrite app_nil_r, count_events_app, Hcount. done.
    + destruct (succ_next_column n) as [Hq Hr]; [lia|].
      destruct (decide (Z.of_nat (n / interval) + 1 < Z.of_nat (length m)))
        as [Hleft|Hend].
      2:{ exfalso. unfold interval in *. lia. }
      eexists. io_pair. split; [reflexivity|].
      cbn [rp_i rp_j rp_sim on_dyn sim_dyn sim_saved].
      split; [lia|]. split; [lia|]. split; [|split; [done|]].
      * unfold play_steps. rewrite Hq, Hr, Nat.add_1_r.
        cbn [held_states List.last].
        rewrite (take_S_r m (n / interval) (m !!! (n / interval)%nat))
          by (by apply list_lookup_lookup_total_lt).
        rewrite play_snoc, (hold_last (n mod interval)) by lia.
        by rewrite Hdyn.
      * rewrite app_nil_r, count_events_app, Hcount. done.
Qed.

(** The step that completes a pass through the plan. *)
Lemma full_pass (robot_idx : Z) (m : list (list Scalar))
    (sim : Simulation Dyn) :
  Z.of_nat (length m) < 2 ^ 31 ->
  (0 < length m)%nat ->
  value (render_substeps (interval * length m) robot_idx m
           (replay_start sim)) =
    Some (replay_start
            (restoreState {| sim_dyn := play robot_idx m (sim_dyn sim);
                             sim_saved := sim_saved sim |})) /\
  count_events is_restore
    (events (render_substeps (interval * length m) robot_idx m
               (replay_start sim))) = 1%nat.
Proof.
  intros Hcols Hpos.
  destruct (length m) as [|l] eqn:Hlen; [lia|].
  replace (interval * S l)%nat with (S (interval * l + 3))
    by (unfold interval; lia).
  destruct (first_pass (interval * l + 3) robot_idx m sim)
    as (st & Hv & Hi & Hj & Hdyn & Hsaved & Hcount);
    [ by rewrite Hlen | rewrite Hlen; unfold interval; lia |].
  assert (Hq : ((interval * l + 3) / interval = l)%nat).
  { symmetry. apply (Nat.div_unique _ interval _ 3); unfold interval; lia. }
  assert (Hr : ((interval * l + 3) mod interval = 3)%nat).
  { symmetry. apply (Nat.mod_unique _ interval l); unfold interval; lia. }
  rewrite Hq in Hj. rewrite Hr in Hi.
  rewrite render_substeps_snoc. io_unfold. rewrite Hv.
  cbn [render_substeps]. io_unfold.
  rewrite render_substep_eq
    by (rewrite ?Hi, ?Hj, ?Hlen; unfold interval; lia).
  cbn zeta. rewrite Hi, Hj, Nat2Z.id.
  destruct (decide (Z.of_nat 3 + 1 < Z.of_nat interval));
    [unfold interval in *; lia|].
  destruct (decide (Z.of_nat l + 1 < Z.of_nat (length m))); [lia|].
  io_pair. split.
  - do 2 f_equal. unfold on_dyn; cbn [sim_dyn sim_saved].
    rewrite Hsaved, Hdyn. do 2 f_equal.
    unfold play_steps. rewrite Hq, Hr.
    rewrite <- (hold_last 3) by done.
    rewrite <- play_snoc, <- (take_S_r m l)
      by (apply list_lookup_lookup_total_lt; lia).
    by rewrite take_ge by lia.
  - rewrite !count_events_app, Hcount. done.
Qed.

(** X11. The viewer replays the plan in cycles.  On a pass through the
    plan, after [n] steps with [n] less than [interval] times the number
    of columns, the counters are [n mod interval] and [n / interval], the
    simulation is where holding the columns before column [n / interval]
    for [interval] steps each and that column for [n mod interval] steps
    takes it, and no state has been restored.  The step that completes the
    pass sets both counters to zero and calls [restoreState], once, on the
    simulation that has been through the whole plan; from there the loop
    goes on as from its start. *)
Theorem viewer_cycle (robot_idx : Z) (m : list (list Scalar))
    (sim : Simulation Dyn) :
  Z.of_nat (length m) < 2 ^ 31 ->
  (0 < length m)%nat ->
  let cycle := (interval * length m)%nat in
  let run n := render_substeps n robot_idx m (replay_start sim) in
  let back :=
    restoreState {| sim_dyn := play robot_idx m (sim_dyn sim);
                    sim_saved := sim_saved sim |} in
  (forall n, (n < cycle)%nat ->
     exists st,
       value (run n) = Some st /\
       rp_i st = Z.of_nat (n mod interval) /\
       rp_j st = Z.of_nat (n / interval) /\
       sim_dyn (rp_sim st) = play_steps robot_idx m n (sim_dyn sim) /\
       sim_saved (rp_sim st) = sim_saved sim /\
       count_events is_restore (events (run n)) = O) /\
  value (run cycle) = Some (replay_start back) /\
  count_events is_restore (events (run cycle)) = 1%nat /\
  (forall n,
     value (run (cycle + n)%nat) =
     value (render_substeps n robot_idx m (replay_start back))).
Proof.
  intros Hcols Hpos. cbn zeta.
  split; [intros n Hn; by apply first_pass|].
  destruct (full_pass robot_idx m sim Hcols Hpos) as [Hv Hone].
  split; [done|]. split; [done|].
  intros n. by rewrite render_substeps_add, value_bind, Hv.
Qed.

Lemma without_frames_app (t1 t2 : list (Event (Scalar:=Scalar))) :
  without_frames (t1 ++ t2) = without_frames t1 ++ without_frames t2.
Proof. apply List.filter_app. Qed.

Lemma render_substep_no_frames robot_idx (m : list (list Scalar))
    (st : Replay) :
  without_frames (events (render_substep robot_idx m st)) =
  events (render_substep robot_idx m st).
Proof.
  unfold render_substep.
  destruct (col (rp_j st) m) as [target|]; [|done].
  unfold sim_setJointTargetPositions, sim_step, sim_restoreState.
  destruct (decide (Z.of_nat interval <= wrap_int (rp_i st + 1)));
    match goal with
    | |- context [decide (Z.of_nat (length m) <= ?j)] =>
        destruct (decide (Z.of_nat (length m) <= j))
    end; by io_unfold.
Qed.

Lemma render_substeps_no_frames n robot_idx (m : list (list Scalar))
    (st : Replay) :
  without_frames (events (render_substeps n robot_idx m st)) =
  events (render_substeps n robot_idx m st).
Proof.
  revert st; induction n as [|n IH]; intros st; [done|].
  cbn [render_substeps]. io_unfold.
  rewrite without_frames_app, render_substep_no_frames. f_equal.
  destruct (value (render_substep robot_idx m st)); [apply IH|done].
Qed.

(** X12. How the clock groups the steps into frames does not matter to
    what is simulated: the viewer ends in the state of running the inner
    loop as often as all frames together ask for, and apart from the
    frames it renders it makes the same calls in the same order. *)
Theorem frames_grouping (frames : list nat) (robot_idx : Z)
    (m : list (list Scalar)) (st : Replay) :
  value (render_frames frames robot_idx m st) =
    value (render_substeps (sum_list frames) robot_idx m st) /\
  without_frames (events (render_frames frames robot_idx m st)) =
    events (render_substeps (sum_list frames) robot_idx m st).
Proof.
  revert st; induction frames as [|n rest IH]; intros st; [done|].
  cbn [render_frames sum_list_with id].
  rewrite render_substeps_add. io_unfold.
  rewrite without_frames_app, render_substeps_no_frames.
  destruct (value (render_substeps n robot_idx m st)) as [st'|];
    io_unfold; [|done].
  destruct (IH st') as [-> <-]. split; [done|].
  by rewrite without_frames_app.
Qed.

End ViewerFacts.

(** ** The kinds of events of the parts of a run *)

Section KindFacts.
Context {Scalar : Type} `{SO : ScalarOps Scalar} `{MC : !MainConstants Scalar}.
Context `{GG : GraphGrammar}.
Context `{SP : !SimulationPort Scalar}.
Context `{VE : !ValueEstimator Scalar Dyn}.
Context `{OP : !Optimizer Scalar Estimator}.
Context `{RG : RandomGenerator}.

(** A loop invariant with a property of the events, for a body that needs
    to know that its round is one of the loop. *)
Lemma for_loop_bounded {Ev St} (I : St -> Prop) (P : Ev -> Prop)
    (body : nat -> St -> M Ev St) n :
  forall lo s,
    (forall j s', (lo <= j < lo + n)%nat -> I s' ->
       I (value (body j s')) /\ Forall P (events (body j s'))) ->
    I s ->
    I (value (for_loop n lo body s)) /\
    Forall P (events (for_loop n lo body s)).
Proof.
  induction n as [|n IH]; intros lo s Hbody Hs.
  - split; [done|constructor].
  - cbn [for_loop]. io_unfold.
    destruct (Hbody lo s) as [Hv He]; [lia|done|].
    destruct (IH (S lo) (value (body lo s))) as [Hv' He']; [|done|].
    + intros j s' Hj. apply Hbody. lia.
    + split; [done|]. by apply Forall_app.
Qed.

Lemma create_rules_kinds (rule_graphs : list Graph) :
  Forall (fun e => grammar_event e = true)
    (events (create_rules (Scalar:=Scalar) rule_graphs)).
Proof.
  induction rule_graphs as [|g gs IH]; [constructor|].
  cbn [create_rules]. io_unfold. rewrite app_nil_r.
  by constructor.
Qed.

Lemma apply_rule_sequence_kinds (rules : list Rule) g sequence :
  Forall (fun e => grammar_event e = true)
    (events (apply_rule_sequence (Scalar:=Scalar) rules g sequence)).
Proof.
  revert g; induction sequence as [|idx rest IH]; intros g; [constructor|].
  cbn [apply_rule_sequence]. io_unfold. apply Forall_app. split; [|apply IH].
  unfold rewrite_step.
  destruct (rules !! N.to_nat idx) as [rule|]; [|constructor].
  destruct (findMatches (lhs_ rule) g); by repeat constructor.
Qed.

Lemma episode_kinds robot_idx dof_count obs_size thread_count k (v : Vars) :
  Forall (fun e => episode_event e = true)
    (events (episode robot_idx dof_count obs_size thread_count k v)).
Proof.
  rewrite episode_eq. cbn zeta. io_pair.
  match goal with
  | |- context [lockstep ?e ?idx ?o ?s v] =>
      destruct (lockstep_kept_loop e idx o s v) as [_ Hev]
  end.
  repeat (apply Forall_app; split);
    first [ by repeat constructor
          | eapply List.Forall_impl; [|apply warmup_events]; by intros ? ->
          | eapply List.Forall_impl; [|exact Hev]; by intros [] ].
Qed.

Lemma optimization_kinds (cfg : Config) (inp : Inputs) :
  Forall (fun e => episode_event e = true) (events (optimization cfg inp)).
Proof.
  rewrite optimization_loop.
  apply (for_loop_invariant (fun _ => True)); [|done].
  intros k v _. split; [done|]. apply episode_kinds.
Qed.

Lemma render_substeps_kinds n robot_idx (m : list (list Scalar))
    (st : Replay) :
  Forall (fun e => viewer_event e = true)
    (events (render_substeps n robot_idx m st)).
Proof.
  revert st; induction n as [|n IH]; intros st; [constructor|].
  cbn [render_substeps]. io_unfold. apply Forall_app. split.
  - unfold render_substep.
    destruct (col (rp_j st) m) as [target|]; [|constructor].
    unfold sim_setJointTargetPositions, sim_step, sim_restoreState.
    destruct (decide (Z.of_nat interval <= wrap_int (rp_i st + 1)));
      match goal with
      | |- context [decide (Z.of_nat (length m) <= ?j)] =>
          destruct (decide (Z.of_nat (length m) <= j))
      end; io_unfold; by repeat constructor.
  - destruct (value (render_substep robot_idx m st)); [apply IH|constructor].
Qed.

Lemma render_frames_kinds frames robot_idx (m : list (list Scalar))
    (st : Replay) :
  Forall (fun e => viewer_event e = true)
    (events (render_frames frames robot_idx m st)).
Proof.
  revert st; induction frames as [|n rest IH]; intros st; [constructor|].
  cbn [render_frames]. io_unfold. apply Forall_app.
  split; [apply render_substeps_kinds|].
  destruct (value (render_substeps n robot_idx m st)); [|constructor].
  io_unfold. constructor; [done|]. apply IH.
Qed.

End KindFacts.

(** ** Properties of every run *)

Section RunFacts.
Context {Scalar : Type} `{SO : ScalarOps Scalar} `{MC : !MainConstants Scalar}.
Context `{GG : GraphGrammar}.
Context `{SP : !SimulationPort Scalar}.
Context `{VE : !ValueEstimator Scalar Dyn}.
Context `{OP : !Optimizer Scalar Estimator}.
Context `{RG : RandomGenerator}.

Lemma kinds_in_range (cols : nat) (t : list (Event (Scalar:=Scalar))) :
  Forall (fun e => is_set_target e = false) t ->
  Forall (column_in_range cols) t.
Proof.
  intros Hk. eapply List.Forall_impl; [|exact Hk]. by intros [].
Qed.

Lemma lockstep_columns ve robot_idx optimizer sim (v : Vars) :
  Forall (column_in_range (length (input_sequence v)))
    (events (lockstep ve robot_idx optimizer sim v)).
Proof.
  unfold lockstep.
  apply (for_loop_bounded (fun _ => True)
           (column_in_range (length (input_sequence v)))); [|done].
  intros j st Hj _. split; [done|].
  destruct (control_step_events ve robot_idx j st) as [st1 ->].
  apply Forall_app. split; [by repeat constructor|].
  apply (for_loop_invariant (fun _ => True)); [|done].
  intros i s _. split; [done|]. rewrite physics_step_eq. cbn zeta.
  io_pair. unfold physics_events. repeat constructor; cbn; lia.
Qed.

Lemma episode_columns robot_idx dof_count obs_size thread_count k (v : Vars) :
  Forall (column_in_range (length (input_sequence v)))
    (events (episode robot_idx dof_count obs_size thread_count k v)).
Proof.
  rewrite episode_eq. cbn zeta. io_pair.
  repeat (apply Forall_app; split);
    first [ by repeat constructor
          | apply lockstep_columns
          | apply kinds_in_range;
            eapply List.Forall_impl; [|apply warmup_events]; by intros ? -> ].
Qed.

Lemma optimization_columns (cfg : Config) (inp : Inputs) :
  Forall (column_in_range episode_len) (events (optimization cfg inp)).
Proof.
  rewrite optimization_loop.
  apply (for_loop_invariant vars_sized); [|apply initial_vars_sized].
  intros k v Hv. split; [by apply episode_sized|].
  destruct Hv as (<- & _). apply episode_columns.
Qed.

(** X13. No run reads a column outside the plan: a run never ends in
    an access outside [input_sequence], and every joint target that it
    sets, in the episodes and in the viewer, is read from a column whose
    index is at least zero and less than the number of columns. *)
Theorem columns_in_range (inp : Inputs) :
  value (main (Scalar:=Scalar) inp) <> OutOfBounds /\
  Forall (column_in_range episode_len) (events (main (Scalar:=Scalar) inp)).
Proof.
  split; [apply main_in_bounds|].
  unfold main.
  destruct (parse_cli inp) as [cfg|what| |what|what];
    try by repeat constructor.
  destruct (loadGraphs (graph_file cfg)) as [|g gs] eqn:Hload.
  { unfold run. rewrite Hload. by repeat constructor. }
  destruct (run_eq cfg inp) as (replay & shown & _ & -> & Hshown);
    [congruence|].
  destruct (optimization_sized cfg inp) as (Hcols & _).
  repeat (apply Forall_app; split);
    first [ by repeat constructor
          | apply optimization_columns
          | apply kinds_in_range;
            first [ eapply List.Forall_impl; [|apply create_rules_kinds]
                  | eapply List.Forall_impl;
                    [|apply apply_rule_sequence_kinds] ];
            by intros []
          | idtac ].
  - apply kinds_in_range. unfold save_snapshot.
    destruct (decide (save_image cfg = "")); [constructor|].
    io_unfold. destruct (encode_error inp =? 0)%N; by repeat constructor.
  - eapply List.Forall_impl; [|exact Hshown].
    intros [] He; try done. cbn in *. lia.
Qed.

Lemma optimization_after (cfg : Config) (inp : Inputs) :
  value (optimization cfg inp) =
  after_episodes (robot_idx_of cfg) (dof_count_of cfg)
    (getObservationSize make_estimator)
    (thread_count_of (jobs cfg) (hardware_concurrency inp))
    (vars_before cfg) (episode_count_of cfg).
Proof. by rewrite optimization_loop. Qed.

(** X14. A run that gets to its end leaves the containers of [main] in
    the shapes it gave them: the plan has [episode_len] columns, there
    are [episode_len + 1] observations and returns and [episode_len]
    rewards, and the replay buffer holds [episode_len] observations and
    as many returns for every episode that ran. *)
Theorem run_shapes (inp : Inputs) (cfg : Config) (code : Z) (f : Final) :
  parse_cli inp = Parsed cfg ->
  value (main inp) = Exited code (Some f) ->
  vars_sized (fin_vars f) /\
  length (replay_obs (fin_vars f)) = (episode_count_of cfg * episode_len)%nat /\
  length (replay_returns (fin_vars f)) =
    (episode_count_of cfg * episode_len)%nat.
Proof.
  intros Hparse. unfold main. rewrite Hparse.
  destruct (loadGraphs (graph_file cfg)) as [|g gs] eqn:Hload.
  { unfold run. by rewrite Hload. }
  destruct (run_eq cfg inp) as (replay & shown & -> & _); [congruence|].
  intros [= _ <-]. cbn [fin_vars].
  destruct (replay_lengths (robot_idx_of cfg) (dof_count_of cfg)
              (getObservationSize make_estimator)
              (thread_count_of (jobs cfg) (hardware_concurrency inp))
              (vars_before cfg) (episode_count_of cfg)
              (initial_vars_sized _ _ _ _)) as [Ho Hr].
  rewrite <- optimization_after in Ho, Hr.
  split; [apply optimization_sized|]. by split.
Qed.

(** The events of a run that found graphs, written out. *)
Lemma run_events (cfg : Config) (inp : Inputs) :
  loadGraphs (graph_file cfg) <> [] ->
  let vars := value (optimization cfg inp) in
  events (run cfg inp) =
    [LoadGraphs (graph_file cfg);
     Cout [Text "Number of graphs: ";
           Count (length (loadGraphs (graph_file cfg)))]]
      ++ events (create_rules (Scalar:=Scalar) (loadGraphs (graph_file cfg)))
      ++ events (apply_rule_sequence (Scalar:=Scalar) (rules_of cfg)
                   seed_graph (rule_sequence cfg))
      ++ [BuildRobot (robot_graph_of Scalar cfg); TempSimulation; MakeSim]
      ++ events (optimization cfg inp)
      ++ [SaveState]
      ++ events (save_snapshot (Scalar:=Scalar) (save_image cfg)
                   (encode_error inp))
      ++ (if render cfg
          then events (render_frames (frames inp) (robot_idx_of cfg)
                         (input_sequence vars)
                         (replay_start (saveState (main_sim vars))))
          else []).
Proof.
  intros Hgraphs. cbn zeta. unfold run.
  destruct (loadGraphs (graph_file cfg)) as [|g gs] eqn:Hload; [done|].
  rewrite <- Hload.
  assert (Hrules : value (create_rules (Scalar:=Scalar)
                            (loadGraphs (graph_file cfg))) = rules_of cfg)
    by apply create_rules_value.
  unfold sim_saveState. io_unfold. rewrite Hrules.
  fold (robot_graph_of Scalar cfg). fold (initial_dyn cfg).
  cbn [sim_dyn]. fold (robot_idx_of cfg). fold (dof_count_of cfg).
  fold (vars_before cfg). fold (optimization cfg inp).
  cbn [app]. unfold replay_start.
  destruct (render cfg); io_unfold; [|done].
  match goal with
  | |- context [value (render_frames ?fs ?i ?m ?st)] =>
      destruct (value (render_frames fs i m st))
  end; io_unfold; by rewrite app_nil_r.
Qed.

Lemma omap_no_kind {A} (f : Event (Scalar:=Scalar) -> option A)
    (K : Event (Scalar:=Scalar) -> bool) (t : list Event) :
  (forall e, K e = true -> f e = None) ->
  Forall (fun e => K e = true) t -> omap f t = [].
Proof.
  intros HK. induction 1 as [|e t He _ IH]; [done|].
  change (omap f (e :: t))
    with (match f e with Some y => y :: omap f t | None => omap f t end).
  by rewrite (HK e He), IH.
Qed.

(** X15. A run that found graphs encodes a snapshot exactly when a path
    was given for it, once and to that path.  The only error that such a
    run reports is a failure of the encoder, and it still returns 0. *)
Theorem snapshot_encoded (inp : Inputs) (cfg : Config) :
  parse_cli inp = Parsed cfg ->
  loadGraphs (graph_file cfg) <> [] ->
  encoded (events (main inp)) =
    (if decide (save_image cfg = "") then [] else [save_image cfg]) /\
  reported (events (main inp)) =
    (if decide (save_image cfg = "") then []
     else if (encode_error inp =? 0)%N then []
     else [[Text "Failed to save image: ";
            LodepngError (encode_error inp)]]) /\
  exists f, value (main inp) = Exited 0 (Some f).
Proof.
  intros Hparse Hgraphs. unfold main. rewrite Hparse.
  destruct (run_eq cfg inp Hgraphs) as (replay & shown & Hv & _).
  rewrite (run_events cfg inp Hgraphs). cbn zeta.
  assert (Hquiet : forall A (f : Event (Scalar:=Scalar) -> option A),
    (forall e, run_event e = true -> f e = None) ->
    omap f (events (create_rules (Scalar:=Scalar)
                      (loadGraphs (graph_file cfg)))) = [] /\
    omap f (events (apply_rule_sequence (Scalar:=Scalar) (rules_of cfg)
                      seed_graph (rule_sequence cfg))) = [] /\
    omap f (events (optimization cfg inp)) = [] /\
    omap f (if render cfg
            then events (render_frames (frames inp) (robot_idx_of cfg)
                           (input_sequence (value (optimization cfg inp)))
                           (replay_start
                              (saveState
                                 (main_sim (value (optimization cfg inp))))))
            else []) = []).
  { intros A f Hf. repeat split.
    - apply (omap_no_kind f grammar_event); [|apply create_rules_kinds].
      intros e He. apply Hf. unfold run_event. by rewrite He.
    - apply (omap_no_kind f grammar_event);
        [|apply apply_rule_sequence_kinds].
      intros e He. apply Hf. unfold run_event. by rewrite He.
    - apply (omap_no_kind f episode_event); [|apply optimization_kinds].
      intros e He. apply Hf. unfold run_event. rewrite He.
      by rewrite orb_true_r.
    - destruct (render cfg); [|done].
      apply (omap_no_kind f viewer_event); [|apply render_frames_kinds].
      intros e He. apply Hf. unfold run_event. rewrite He.
      by rewrite orb_true_r. }
  split; [|split; [|by eexists]].
  - destruct (Hquiet _ (fun e => match e with
                                 | EncodePng path => Some path
                                 | _ => None
                                 end)) as (H1 & H2 & H3 & H4);
      [by intros []|].
    unfold encoded. rewrite !omap_app, H1, H2, H3, H4.
    unfold save_snapshot.
    destruct (decide (save_image cfg = "")); [done|].
    io_unfold. by destruct (encode_error inp =? 0)%N.
  - destruct (Hquiet _ (fun e => match e with
                                 | Cerr line => Some line
                                 | _ => None
                                 end)) as (H1 & H2 & H3 & H4);
      [by intros []|].
    unfold reported. rewrite !omap_app, H1, H2, H3, H4.
    unfold save_snapshot.
    destruct (decide (save_image cfg = "")); [done|].
    io_unfold. by destruct (encode_error inp =? 0)%N.
Qed.

(** X16. The replay buffer is the concatenation, in the order of the
    episodes, of the first [episode_len] observations of each episode and
    of its first [episode_len] returns, after what it held before; the
    final observation of an episode and its bootstrap value never enter
    the buffer. *)
Theorem replay_contents (robot_idx : Z) (dof_count obs_size : nat)
    (thread_count : N) (v : Vars) (k : nat) :
  let state := after_episodes robot_idx dof_count obs_size thread_count v in
  replay_obs (state k) =
    replay_obs v
      ++ concat (map (fun i => take episode_len (obs (state (S i))))
                   (seq 0 k)) /\
  replay_returns (state k) =
    replay_returns v
      ++ concat (map (fun i => take episode_len (returns (state (S i))))
                   (seq 0 k)).
Proof.
  cbn zeta. induction k as [|k [IHo IHr]].
  - unfold after_episodes at 1 2. cbn [for_loop seq map concat].
    by rewrite value_ret, !app_nil_r.
  - destruct (episode_appends robot_idx dof_count obs_size thread_count v k)
      as [-> ->].
    rewrite IHo, IHr at 1.
    rewrite !seq_S, !map_app, !concat_app. cbn [map concat Nat.add].
    by rewrite !app_nil_r, !app_assoc.
Qed.

Lemma substep_target robot_idx (m : list (list Scalar)) (st : Replay) :
  Z.of_nat (length m) < 2 ^ 31 ->
  0 <= rp_i st < Z.of_nat interval ->
  0 <= rp_j st < Z.of_nat (length m) ->
  targets_of (events (render_substeps 1 robot_idx m st)) =
  [m !!! Z.to_nat (rp_j st)].
Proof.
  intros Hcols Hi Hj. cbn [render_substeps]. io_unfold.
  rewrite render_substep_eq by done. cbn zeta.
  destruct (decide (rp_i st + 1 < Z.of_nat interval));
    [|destruct (decide (rp_j st + 1 < Z.of_nat (length m)))];
    io_pair; by io_unfold.
Qed.

Lemma targets_first_pass (n : nat) robot_idx (m : list (list Scalar))
    (sim : Simulation Dyn) :
  Z.of_nat (length m) < 2 ^ 31 ->
  (n <= interval * length m)%nat ->
  targets_of (events (render_substeps n robot_idx m (replay_start sim))) =
  map (fun k => m !!! (k / interval)%nat) (seq 0 n).
Proof.
  intros Hcols. induction n as [|n IH]; intros Hn; [done|].
  destruct (first_pass n robot_idx m sim) as (st & Hv & Hi & Hj & _);
    [done|lia|].
  destruct (interval_divmod n) as [Hdiv Hmod].
  assert (Hcol : (n / interval < length m)%nat).
  { clear -Hdiv Hn. unfold interval in *. lia. }
  rewrite render_substeps_snoc. io_unfold. rewrite Hv.
  rewrite targets_of_app, IH by lia.
  rewrite substep_target by (rewrite ?Hi, ?Hj; lia).
  rewrite Hj, Nat2Z.id, seq_S, map_app. done.
Qed.

(** X17. The joint targets that the viewer sets are the columns of the
    plan, each [interval] times in a row, one column after the other and
    starting again with the first column after the last: target number
    [k] is column [(k / interval) mod cols], whatever the simulation does
    when its state is restored. *)
Theorem viewer_targets (n : nat) (robot_idx : Z) (m : list (list Scalar))
    (sim : Simulation Dyn) :
  Z.of_nat (length m) < 2 ^ 31 ->
  (0 < length m)%nat ->
  targets_of (events (render_substeps n robot_idx m (replay_start sim))) =
  map (fun k => m !!! ((k / interval) mod length m)%nat) (seq 0 n).
Proof.
  intros Hcols Hpos. revert sim.
  induction n as [n IH] using lt_wf_ind. intros sim.
  destruct (decide (n <= interval * length m)%nat) as [Hfirst|Hmore].
  - rewrite targets_first_pass by done.
    apply List.map_ext_in. intros k Hk. apply List.in_seq in Hk.
    rewrite Nat.mod_small; [done|].
    apply Nat.Div0.div_lt_upper_bound. lia.
  - replace n with (interval * length m + (n - interval * length m))%nat
      at 1 2 by lia.
    destruct (full_pass robot_idx m sim Hcols Hpos) as [Hv _].
    rewrite render_substeps_add. io_unfold. rewrite Hv.
    rewrite targets_of_app, targets_first_pass by done.
    rewrite IH by (unfold interval in *; lia).
    rewrite List.seq_app, map_app. f_equal.
    + apply List.map_ext_in. intros k Hk. apply List.in_seq in Hk.
      rewrite Nat.mod_small; [done|].
      apply Nat.Div0.div_lt_upper_bound. lia.
    + replace (0 + interval * length m)%nat
        with (interval * length m + 0)%nat by lia.
      rewrite <- fmap_add_seq.
      change (map ?f (Nat.add ?a <$> ?l)) with (map f (map (Nat.add a) l)).
      rewrite List.map_map. apply List.map_ext. intros k.
      rewrite (Nat.mul_comm interval), Nat.div_add_l by done.
      rewrite (Nat.add_comm (length m)).
      replace (k / interval + length m)%nat
        with (k / interval + 1 * length m)%nat by lia.
      by rewrite Nat.Div0.mod_add.
Qed.

End RunFacts.

(** ** The plan of an episode *)

Section PlanFacts.
Context {Scalar : Type} `{SO : ScalarOps Scalar} `{MC : !MainConstants Scalar}.
Context `{GG : GraphGrammar}.
Context `{SP : !SimulationPort Scalar}.
Context `{VE : !ValueEstimator Scalar Dyn}.
Context `{OP : !Optimizer Scalar Estimator}.
Context `{RG : RandomGenerator}.

Lemma warmup_value (ve : Estimator) (params : OptimizerParams Scalar) :
  value (warmup ve params) = warmed ve params.
Proof.
  unfold warmup, warmed.
  apply (for_loop_indexed
           (fun j o => o = Nat.iter j (update ve) (new_optimizer params))
           (warmup_step ve) warmup_updates 0); [|done].
  intros j o _ ->. unfold warmup_step. by io_unfold.
Qed.

Lemma control_step_plan ve robot_idx optimizer cols j (st : Lockstep) :
  (j < cols)%nat ->
  plan_so_far ve optimizer cols j st ->
  plan_so_far ve optimizer cols (S j) (value (control_step ve robot_idx j st)).
Proof.
  intros Hj (Hseq & Hrew & Hopt & Htake).
  rewrite control_step_eq by lia. cbn zeta. io_pair.
  unfold plan_so_far. cbn [ls_input_sequence ls_rewards ls_optimizer].
  rewrite !length_insert. split; [done|]. split; [done|]. split.
  - by rewrite Hopt.
  - rewrite (take_S_r _ j (planned ve optimizer j)).
    + rewrite take_insert_ge, Htake by lia. by rewrite seq_S, map_app.
    + rewrite Hopt. apply list_lookup_insert_eq. lia.
Qed.

(** X18. The plan that an episode records is made by the optimizer and
    the estimator alone, without the main simulation: column [j] is the
    first column of the optimizer's plan after its update in round [j],
    where the optimizer has been through the warm-up updates and, for
    every round before, one update and one advance by one. *)
Theorem episode_plan (robot_idx : Z) (dof_count obs_size : nat)
    (thread_count : N) (k : nat) (v : Vars) :
  vars_sized v ->
  let ve := value_estimator v in
  let params :=
    optimizer_params dof_count thread_count (generate (generator v)).1 in
  input_sequence
    (value (episode robot_idx dof_count obs_size thread_count k v)) =
  map (planned ve (warmed ve params)) (seq 0 episode_len).
Proof.
  intros (Hseq & Hobs & Hrew & Hret). cbn zeta.
  rewrite episode_eq. cbn zeta. io_pair. cbn [input_sequence].
  rewrite warmup_value. unfold lockstep.
  match goal with
  | |- context [for_loop ?n 0 ?body ?s] =>
      destruct (for_loop_indexed
                  (plan_so_far (value_estimator v)
                     (warmed (value_estimator v)
                        (optimizer_params dof_count thread_count
                           (generate (generator v)).1))
                     episode_len)
                  body n 0 s) as (Hlen & _ & _ & Htake)
  end.
  - intros j st Hj. apply control_step_plan. lia.
  - unfold plan_so_far. cbn [ls_input_sequence ls_rewards ls_optimizer].
    by rewrite Hseq, Hrew.
  - cbn [Nat.add] in Htake. rewrite Hseq in Htake at 1 3.
    rewrite <- Htake. symmetry. apply take_ge. lia.
Qed.

End PlanFacts.

(** ** Saving before restoring *)

Section CheckpointFacts.
Context {Scalar : Type} `{SO : ScalarOps Scalar} `{MC : !MainConstants Scalar}.
Context `{GG : GraphGrammar}.
Context `{SP : !SimulationPort Scalar}.
Context `{VE : !ValueEstimator Scalar Dyn}.
Context `{OP : !Optimizer Scalar Estimator}.
Context `{RG : RandomGenerator}.
Implicit Types (t : list (Event (Scalar:=Scalar))).

Lemma scan_app saved t1 t2 :
  checkpoint_scan saved (t1 ++ t2) =
  match checkpoint_scan saved t1 with
  | Some saved' => checkpoint_scan saved' t2
  | None => None
  end.
Proof.
  revert saved; induction t1 as [|e t1 IH]; intros saved; [done|].
  destruct e; cbn [app checkpoint_scan]; try apply IH.
  by destruct saved.
Qed.

Lemma scan_quiet saved t :
  Forall (fun e => is_checkpoint e = false) t ->
  checkpoint_scan saved t = Some saved.
Proof. induction 1 as [|e t He _ IH]; [done|]. by destruct e. Qed.

Lemma scan_saved t :
  Forall (fun e => is_save e = false) t ->
  checkpoint_scan true t = Some true.
Proof. induction 1 as [|e t He _ IH]; [done|]. by destruct e. Qed.

Lemma scan_split saved saved' (pre post : list (Event (Scalar:=Scalar))) :
  checkpoint_scan saved (pre ++ RestoreState :: post) = Some saved' ->
  saved = true \/ SaveState ∈ pre.
Proof.
  revert saved; induction pre as [|e pre IH]; intros saved.
  - cbn. destruct saved; [by left|done].
  - destruct e; cbn [app checkpoint_scan];
      try (intros Hscan; destruct (IH _ Hscan) as [?|?];
           [by left | right; apply elem_of_cons; by right]).
    + intros _. right. apply elem_of_cons. by left.
    + destruct saved; [by left|done].
Qed.

Lemma episode_scan saved robot_idx dof_count obs_size thread_count k
    (v : Vars) :
  checkpoint_scan saved
    (events (episode robot_idx dof_count obs_size thread_count k v))
  = Some true.
Proof.
  rewrite episode_eq. cbn zeta. io_pair.
  match goal with
  | |- context [lockstep ?e ?idx ?o ?s v] =>
      destruct (lockstep_kept_loop e idx o s v) as [_ Hev]
  end.
  cbn [app checkpoint_scan].
  rewrite scan_app, scan_quiet.
  2:{ eapply List.Forall_impl; [|apply warmup_events]. by intros ? ->. }
  cbn [app checkpoint_scan].
  rewrite scan_app, scan_quiet; [done|].
  eapply List.Forall_impl; [|exact Hev]. by intros [].
Qed.

Lemma episodes_scan saved robot_idx dof_count obs_size thread_count n lo
    (v : Vars) :
  exists saved',
    checkpoint_scan saved
      (events (for_loop n lo
                 (episode robot_idx dof_count obs_size thread_count) v))
    = Some saved'.
Proof.
  revert saved lo v; induction n as [|n IH]; intros saved lo v.
  - by exists saved.
  - cbn [for_loop]. io_unfold. rewrite scan_app, episode_scan. apply IH.
Qed.

(** X19. No run restores the state of the main simulation before it has
    saved one: wherever [restoreState] is called in a run, [saveState]
    was called earlier in that run. *)
Theorem saved_before_restored (inp : Inputs)
    (pre post : list (Event (Scalar:=Scalar))) :
  events (main inp) = pre ++ RestoreState :: post ->
  SaveState ∈ pre.
Proof.
  intros Hsplit.
  assert (Hscan : exists saved,
            checkpoint_scan false (events (main (Scalar:=Scalar) inp))
            = Some saved).
  { unfold main.
    destruct (parse_cli inp) as [cfg|what| |what|what]; try by eexists.
    destruct (loadGraphs (graph_file cfg)) as [|g gs] eqn:Hload.
    { unfold run. rewrite Hload. by eexists. }
    rewrite run_events by congruence. cbn zeta.
    cbn [app checkpoint_scan].
    rewrite scan_app, scan_quiet.
    2:{ eapply List.Forall_impl; [|apply create_rules_kinds]. by intros []. }
    rewrite scan_app, scan_quiet.
    2:{ eapply List.Forall_impl; [|apply apply_rule_sequence_kinds].
        by intros []. }
    cbn [app checkpoint_scan]. rewrite scan_app.
    rewrite optimization_loop.
    destruct (episodes_scan false (robot_idx_of cfg) (dof_count_of cfg)
                (getObservationSize make_estimator)
                (thread_count_of (jobs cfg) (hardware_concurrency inp))
                (episode_count_of cfg) 0 (vars_before cfg)) as [b ->].
    cbn [app checkpoint_scan]. rewrite scan_app, scan_quiet.
    2:{ unfold save_snapshot.
        destruct (decide (save_image cfg = "")); [constructor|].
        io_unfold. destruct (encode_error inp =? 0)%N; by repeat constructor. }
    exists true. apply scan_saved.
    destruct (render cfg); [|constructor].
    eapply List.Forall_impl; [|apply render_frames_kinds]. by intros []. }
  destruct Hscan as [saved Hscan]. rewrite Hsplit in Hscan.
  by destruct (scan_split _ _ _ _ Hscan).
Qed.

End CheckpointFacts.

(** ** The snapshot is the rendered image upside down *)

Section SnapshotFacts.

Lemma flip_row_eq (wn hn i : nat) (rgba flipped : list Byte.byte) :
  4 * Z.of_nat wn * Z.of_nat hn < 2 ^ 31 ->
  Z.of_nat hn < 2 ^ 31 ->
  (i < hn)%nat ->
  length rgba = (hn * (4 * wn))%nat ->
  length flipped = (hn * (4 * wn))%nat ->
  flip_row (Z.of_nat wn) (Z.of_nat hn) rgba (Z.of_nat i) flipped
  = Some (take (i * (4 * wn)) flipped
            ++ take (4 * wn) (drop ((hn - 1 - i) * (4 * wn)) rgba)
            ++ drop (i * (4 * wn) + 4 * wn) flipped).
Proof.
  intros Hfit Hint Hi Hrgba Hflipped.
  change (2 ^ 31) with 2147483648 in Hfit, Hint.
  assert (Hrow : Z.of_nat i * Z.of_nat wn + Z.of_nat wn
                 <= Z.of_nat hn * Z.of_nat wn) by nia.
  assert (Hsrc : (Z.of_nat hn - Z.of_nat i - 1) * Z.of_nat wn + Z.of_nat wn
                 <= Z.of_nat hn * Z.of_nat wn) by nia.
  assert (Hpos : 0 <= Z.of_nat i * Z.of_nat wn) by nia.
  assert (Hpos' : 0 <= (Z.of_nat hn - Z.of_nat i - 1) * Z.of_nat wn) by nia.
  unfold flip_row, int_mul, int_sub.
  rewrite (wrap_int_small (Z.of_nat i * Z.of_nat wn))
    by (change (2 ^ 31) with 2147483648; lia).
  rewrite (wrap_int_small (Z.of_nat hn - Z.of_nat i))
    by (change (2 ^ 31) with 2147483648; lia).
  rewrite (wrap_int_small (Z.of_nat hn - Z.of_nat i - 1))
    by (change (2 ^ 31) with 2147483648; lia).
  rewrite (wrap_int_small ((Z.of_nat hn - Z.of_nat i - 1) * Z.of_nat wn))
    by (change (2 ^ 31) with 2147483648; lia).
  rewrite !wrap_int_small by (change (2 ^ 31) with 2147483648; lia).
  unfold memcpy.
  rewrite decide_True by (rewrite Hrgba, Hflipped; lia).
  replace (Z.to_nat (Z.of_nat i * Z.of_nat wn * 4)) with (i * (4 * wn))%nat
    by lia.
  replace (Z.to_nat (Z.of_nat wn * 4)) with (4 * wn)%nat by lia.
  replace (Z.to_nat ((Z.of_nat hn - Z.of_nat i - 1) * Z.of_nat wn * 4))
    with ((hn - 1 - i) * (4 * wn))%nat.
  2: { replace (Z.of_nat hn - Z.of_nat i - 1) with (Z.of_nat (hn - 1 - i))
         by lia.
       lia. }
  replace (Z.to_nat (Z.of_nat i * Z.of_nat wn * 4 + Z.of_nat wn * 4))
    with (i * (4 * wn) + 4 * wn)%nat by lia.
  reflexivity.
Qed.

Lemma row_index (row r i k : nat) :
  (r < i)%nat -> (k < row)%nat -> (r * row + k < i * row)%nat.
Proof. intros Hr Hk. nia. Qed.

Lemma flip_step (row rows i : nat) (rgba flipped : list Byte.byte) :
  (i < rows)%nat ->
  length rgba = (rows * row)%nat ->
  flipped_so_far row rows rgba i flipped ->
  flipped_so_far row rows rgba (S i)
    (take (i * row) flipped
       ++ take row (drop ((rows - 1 - i) * row) rgba)
       ++ drop (i * row + row) flipped).
Proof.
  intros Hi Hrgba [Hlen Hrows].
  assert (Hdst : (i * row + row <= rows * row)%nat) by nia.
  assert (Hsrc : ((rows - 1 - i) * row + row <= rows * row)%nat) by nia.
  assert (Htake : length (take (i * row) flipped) = (i * row)%nat).
  { rewrite length_take. lia. }
  assert (Hcopy : length (take row (drop ((rows - 1 - i) * row) rgba)) = row).
  { rewrite length_take, length_drop. lia. }
  split.
  - rewrite !length_app, Htake, Hcopy, length_drop. lia.
  - intros r k Hr Hk.
    destruct (decide (r = i)) as [->|Hne].
    + rewrite lookup_app_r by lia.
      rewrite Htake.
      replace (i * row + k - i * row)%nat with k by lia.
      rewrite lookup_app_l by lia.
      rewrite lookup_take_lt by done.
      by rewrite lookup_drop.
    + pose proof (row_index row r i k ltac:(lia) Hk) as Hlt.
      rewrite lookup_app_l by lia.
      rewrite lookup_take_lt by done.
      apply Hrows; [lia | done].
Qed.

Lemma flip_rows_from_rows (wn hn : nat) (rgba : list Byte.byte) :
  4 * Z.of_nat wn * Z.of_nat hn < 2 ^ 31 ->
  Z.of_nat hn < 2 ^ 31 ->
  length rgba = (hn * (4 * wn))%nat ->
  forall n i flipped,
    (i + n = hn)%nat ->
    flipped_so_far (4 * wn) hn rgba i flipped ->
    exists out,
      flip_rows_from n (Z.of_nat i) (Z.of_nat wn) (Z.of_nat hn) rgba flipped
      = Some out /\
      flipped_so_far (4 * wn) hn rgba hn out.
Proof.
  intros Hfit Hint Hrgba n.
  induction n as [|n IH]; intros i flipped Hin Hinv.
  - exists flipped. assert (Hi : i = hn) by lia. subst i. by split.
  - cbn [flip_rows_from].
    rewrite (flip_row_eq wn hn i) by (done || lia || apply Hinv).
    assert (Hnext : wrap_int (Z.of_nat i + 1) = Z.of_nat (S i)).
    { change (2 ^ 31) with 2147483648 in Hint.
      rewrite wrap_int_small; [lia|].
      change (2 ^ 31) with 2147483648. lia. }
    rewrite Hnext. apply IH; [lia|].
    apply flip_step; [lia | done | done].
Qed.

Lemma flip_rows_rows (wn hn : nat) (rgba uninit : list Byte.byte) :
  4 * Z.of_nat wn * Z.of_nat hn < 2 ^ 31 ->
  Z.of_nat hn < 2 ^ 31 ->
  length rgba = (hn * (4 * wn))%nat ->
  length uninit = (hn * (4 * wn))%nat ->
  exists out,
    flip_rows (Z.of_nat wn) (Z.of_nat hn) rgba uninit = Some out /\
    flipped_so_far (4 * wn) hn rgba hn out.
Proof.
  intros Hfit Hint Hrgba Huninit.
  unfold flip_rows. rewrite Nat2Z.id.
  apply (flip_rows_from_rows wn hn rgba Hfit Hint Hrgba hn 0%nat uninit).
  - lia.
  - split; [done|]. intros r k Hr. lia.
Qed.

Lemma flipped_twice (row rows : nat) (rgba once twice : list Byte.byte) :
  length rgba = (rows * row)%nat ->
  flipped_so_far row rows rgba rows once ->
  flipped_so_far row rows once rows twice ->
  twice = rgba.
Proof.
  intros Hrgba [Hlen1 Hrows1] [Hlen2 Hrows2].
  apply list_eq. intros p.
  destruct (decide (p < rows * row)%nat) as [Hp|Hp].
  - assert (Hrow : row <> 0%nat) by nia.
    pose proof (Nat.div_mod_eq p row) as Hsplit.
    pose proof (Nat.mod_upper_bound p row Hrow) as Hk.
    assert (Hr : (p / row < rows)%nat).
    { apply Nat.Div0.div_lt_upper_bound. lia. }
    replace p with (p / row * row + p mod row)%nat at 1 2 by lia.
    rewrite Hrows2 by done.
    rewrite Hrows1 by (lia || done).
    f_equal. replace (rows - 1 - (rows - 1 - p / row))%nat with (p / row)%nat
      by lia.
    done.
  - rewrite !lookup_ge_None_2; [done | lia | lia].
Qed.

(** X20. The picture that is written is the rendered one upside down.
    For a framebuffer of [fb_width] by [fb_height] pixels whose [4 *
    fb_width * fb_height] bytes fit an [int], the loop of lines 218-221
    stays inside both buffers whatever the fresh buffer held, leaves in
    it a buffer of the same size whose row [r] is row [fb_height - 1 - r]
    of the rendered one, and applied to its own result gives the rendered
    buffer back. *)
Theorem snapshot_flipped (fb_width fb_height : Z)
    (rgba uninit : list Byte.byte) :
  0 <= fb_width ->
  0 <= fb_height < 2 ^ 31 ->
  4 * fb_width * fb_height < 2 ^ 31 ->
  Z.of_nat (length rgba) = framebuffer_bytes fb_width fb_height ->
  Z.of_nat (length uninit) = framebuffer_bytes fb_width fb_height ->
  exists flipped,
    flip_rows fb_width fb_height rgba uninit = Some flipped /\
    length flipped = length rgba /\
    (forall r k : nat,
        Z.of_nat r < fb_height -> Z.of_nat k < 4 * fb_width ->
        flipped !! (r * Z.to_nat (4 * fb_width) + k)%nat
        = rgba !! ((Z.to_nat fb_height - 1 - r) * Z.to_nat (4 * fb_width)
                   + k)%nat) /\
    (forall other,
        length other = length rgba ->
        flip_rows fb_width fb_height flipped other = Some rgba).
Proof.
  intros Hw [Hh Hint] Hfit Hrgba Huninit.
  assert (Hbytes : framebuffer_bytes fb_width fb_height
                   = 4 * fb_width * fb_height).
  { change (2 ^ 31) with 2147483648 in Hfit, Hint.
    unfold framebuffer_bytes, int_mul.
    destruct (decide (fb_height = 0)) as [->|Hne].
    - rewrite !Z.mul_0_r. reflexivity.
    - rewrite (wrap_int_small (4 * fb_width))
        by (change (2 ^ 31) with 2147483648; nia).
      rewrite wrap_int_small by (change (2 ^ 31) with 2147483648; nia).
      reflexivity. }
  rewrite Hbytes in Hrgba, Huninit.
  rewrite <- (Z2Nat.id fb_width) in * by done.
  rewrite <- (Z2Nat.id fb_height) in * by done.
  set (wn := Z.to_nat fb_width) in *.
  set (hn := Z.to_nat fb_height) in *.
  assert (Hrgba' : length rgba = (hn * (4 * wn))%nat) by lia.
  assert (Huninit' : length uninit = (hn * (4 * wn))%nat) by lia.
  destruct (flip_rows_rows wn hn rgba uninit Hfit Hint Hrgba' Huninit')
    as (flipped & Hrun & Hflipped).
  exists flipped.
  assert (Hrow : Z.to_nat (4 * Z.of_nat wn) = (4 * wn)%nat) by lia.
  rewrite Hrow, !Nat2Z.id.
  split; [done|]. split; [destruct Hflipped; lia|]. split.
  - intros r k Hr Hk. apply Hflipped; lia.
  - intros other Hother.
    assert (Hlen : length flipped = (hn * (4 * wn))%nat) by apply Hflipped.
    destruct (flip_rows_rows wn hn flipped other Hfit Hint Hlen
                ltac:(lia)) as (twice & Hrun2 & Htwice).
    rewrite Hrun2. f_equal.
    by apply (flipped_twice (4 * wn) hn rgba flipped twice).
Qed.

End SnapshotFacts.

(** ** The properties on the small instance *)

Import Demo.

(** The run of the small instance builds the seed rewritten by rules 1
    and 0; index 5 names no rule and is passed over. *)
Example main_demo :
  built_graph (value (main (Scalar:=float) (inputs config))) =
  Some {| name_ := "robot";
          nodes_ := [node "body"; node "limb"; node "joint"];
          edges_ := [];
          subgraphs_ := [] |}.
Proof. vm_compute. reflexivity. Qed.

(** The backward recursion on rewards 1, 2, 3, 4 with discount 0.5 and
    bootstrap 10: 9 = 4 + 0.5 * 10, 7.5 = 3 + 0.5 * 9, and so on. *)
Example returns_loop_demo :
  returns_loop (MC:=half_discount) 4 [1; 2; 3; 4]%float
    [nan; nan; nan; nan; 10%float]
  = [3.875; 5.75; 7.5; 9; 10]%float.
Proof. vm_compute. reflexivity. Qed.

(** The returns of the first episode of the small instance. *)
Lemma returns_recursion_demo :
  vars_sized (vars_before config) /\
  let v' := value first_episode in
  let final_observation := obs v' !!! episode_len in
  GetObservation episode_len final_observation ∈ events first_episode /\
  returns v' !! episode_len = Some (estimateValue tt final_observation) /\
  forall t, (t < episode_len)%nat ->
    returns v' !! t =
    Some (s_add (rewards v' !!! t)
            (s_mul discount_factor (returns v' !!! S t))).
Proof.
  assert (Hsized : vars_sized (vars_before config))
    by (repeat split; vm_compute; reflexivity).
  split; [exact Hsized|].
  exact (returns_recursion (robot_idx_of config) (dof_count_of config)
           0 8 0 (vars_before config) Hsized).
Defined.


(** Two runs that differ in the optimize flag, the render flag and the
    number of jobs build the same robot: the seed graph carried through
    the sequence 1, 0, 5.  Index 1 is in range and its rule matches the
    seed graph, so the run applies it there, at the first match, and
    carries the rest of the sequence out on the result. *)
Lemma rewrite_deterministic_demo :
  let rule := createRuleFromGraph
                (graph_of [node "robot"; node "body"; node "limb"]) in
  built_graph (value (main (inputs config))) =
  built_graph (value (main (inputs plain_config))) /\
  built_graph (value (main (inputs config))) =
  Some (spec_applyRuleSequence seed_graph (rules_of config) [1; 0; 5]%N) /\
  ApplyRule rule seed_graph 0%nat
    ∈ events (main (Scalar:=float) (inputs config)) /\
  built_graph (value (main (inputs config))) =
  Some (spec_applyRuleSequence (applyRule rule seed_graph 0%nat)
          (rules_of config) [0; 5]%N).
Proof.
  cbn zeta.
  destruct (rewrite_deterministic (inputs config) (inputs plain_config)
              config plain_config eq_refl eq_refl eq_refl eq_refl eq_refl)
    as (Hsame & Hgraph & Hstep & _).
  split; [exact Hsame|].
  split; [apply Hgraph; by vm_compute|].
  apply (Hstep [] 1%N [0; 5]%N
           (createRuleFromGraph
              (graph_of [node "robot"; node "body"; node "limb"]))
           0%nat []).
  - by vm_compute.
  - reflexivity.
  - vm_compute. reflexivity.
  - vm_compute. reflexivity.
Defined.

(** In the first episode of the small instance the state is restored by
    event number 3764, and the value estimator is evaluated after it, by
    event number 3765: the restore does not come after the estimate. *)
Lemma restore_precedes_bootstrap_demo :
  events first_episode !! 3764%nat = Some RestoreState /\
  events first_episode !! 3765%nat = Some (EstimateValue [] 0%float) /\
  ~ restored_after_bootstrap (events first_episode).
Proof.
  assert (Hrestore : events first_episode !! 3764%nat = Some RestoreState)
    by (vm_compute; reflexivity).
  assert (Hestimate :
            events first_episode !! 3765%nat = Some (EstimateValue [] 0%float))
    by (vm_compute; reflexivity).
  split; [exact Hrestore|]. split; [exact Hestimate|].
  intros Hafter.
  pose proof (Hafter 3764%nat 3765%nat [] 0%float Hrestore Hestimate). lia.
Qed.

(** The replay buffer over the episodes of the small instance. *)
Lemma replay_buffer_growth_demo :
  optim config = true /\
  let v0 := initial_vars (main_sim (vars_before config)) tt 7%N 3 in
  let state := after_episodes 0 3 0 8 v0 in
  value (optimize config 0 3 0 8 v0) =
    state (Z.to_nat (wrap_int (Z.of_N (episodes config)))) /\
  forall k,
    length (replay_obs (state k)) = (k * episode_len)%nat /\
    length (replay_returns (state k)) = (k * episode_len)%nat /\
    take (k * episode_len) (replay_obs (state (S k))) = replay_obs (state k) /\
    take (k * episode_len) (replay_returns (state (S k))) =
      replay_returns (state k).
Proof.
  split; [reflexivity|].
  exact (replay_buffer_growth config 0 3 0 8 (main_sim (vars_before config))
           tt 7%N eq_refl).
Defined.

(** The first control step of the first episode of the small instance. *)
Lemma control_step_spec_demo :
  let st := first_lockstep in
  ((0 < length (ls_input_sequence st))%nat /\
   (0 < length (ls_obs st))%nat /\
   (0 < length (ls_rewards st))%nat) /\
  let plan := update tt (ls_optimizer st) in
  let action := input_sequence_ plan !!! 0%nat in
  let o := getObservation tt (sim_dyn (ls_sim st)) in
  let ds := held_states interval 0 action (sim_dyn (ls_sim st)) in
  let st' := value (control_step (Scalar:=float) tt 0 0 st) in
  ls_input_sequence st' !! 0%nat = Some action /\
  ls_optimizer st' = advance 1 plan /\
  ls_obs st' !! 0%nat = Some o /\
  length ds = interval /\
  ls_rewards st' !! 0%nat =
    Some (fold_left s_add (map objective_fn ds) s_zero) /\
  sim_dyn (ls_sim st') = List.last ds (sim_dyn (ls_sim st)) /\
  events (control_step (Scalar:=float) tt 0 0 st) =
    [Update; Advance 1; GetObservation 0 o]
      ++ flat_map (fun d => [SetJointTargetPositions 0 (Z.of_nat 0) action;
                             Step;
                             Objective (objective_fn d)]) ds.
Proof.
  cbn zeta.
  assert (H1 : (0 < length (ls_input_sequence first_lockstep))%nat)
    by (vm_compute; lia).
  assert (H2 : (0 < length (ls_obs first_lockstep))%nat)
    by (vm_compute; lia).
  assert (H3 : (0 < length (ls_rewards first_lockstep))%nat)
    by (vm_compute; lia).
  split; [by repeat split|].
  exact (control_step_spec (Scalar:=float) tt 0 0%nat first_lockstep H1 H2 H3).
Defined.

(** A run on a file without graphs. *)
Lemma empty_graph_file_exits_demo :
  parse_cli (inputs empty_config) = Parsed empty_config /\
  loadGraphs (graph_file empty_config) = [] /\
  exists code,
    code <> 0 /\
    main (Scalar:=float) (inputs empty_config) =
    (Exited code None,
     [LoadGraphs (graph_file empty_config);
      Cerr [Text "Graph file does not contain any graphs"]]).
Proof.
  split; [reflexivity|]. split; [reflexivity|].
  exact (empty_graph_file_exits (Scalar:=float) (inputs empty_config)
           empty_config eq_refl eq_refl).
Defined.

(** A run of the viewer without optimization. *)
Lemma no_optim_zero_plan_demo :
  parse_cli (inputs viewer_config) = Parsed viewer_config /\
  optim viewer_config = false /\
  loadGraphs (graph_file viewer_config) <> [] /\
  let zero := replicate (dof_count_of (Scalar:=float) viewer_config)
                0%float in
  (exists f : @Final float graph_types simulation null_estimator lcg,
      value (main (inputs viewer_config)) = Exited 0 (Some f) /\
      input_sequence (fin_vars f) = replicate episode_len zero /\
      replay_obs (fin_vars f) = [] /\
      replay_returns (fin_vars f) = []) /\
  Forall (fun target => target = zero)
    (targets_of (events (main (Scalar:=float) (inputs viewer_config)))).
Proof.
  assert (Hgraphs : loadGraphs (graph_file viewer_config) <> [])
    by (vm_compute; discriminate).
  split; [reflexivity|]. split; [reflexivity|]. split; [exact Hgraphs|].
  exact (no_optim_zero_plan (inputs viewer_config) viewer_config
           eq_refl eq_refl Hgraphs).
Defined.

(** The viewer on the plan of the small instance, for three frames. *)
Lemma render_in_bounds_demo :
  let m := input_sequence (vars_before config) in
  let d := initial_dyn config in
  let st := {| rp_i := 0; rp_j := 0;
               rp_sim := saveState (main_sim (vars_before config)) |} in
  (Z.of_nat (length m) < 2 ^ 31 /\ replay_inv m d st) /\
  (exists st',
      value (render_frames [3; 1000; 5]%nat 0 m st) = Some st' /\
      replay_inv m d st') /\
  Forall (target_in_bounds m) (events (render_frames [3; 1000; 5]%nat 0 m st)) /\
  (forall st1,
      replay_inv m d st1 ->
      rp_i st1 + 1 = Z.of_nat interval ->
      rp_j st1 + 1 = Z.of_nat (length m) ->
      value (render_substep 0 m st1) =
      Some {| rp_i := 0; rp_j := 0;
              rp_sim := {| sim_dyn := d; sim_saved := Some d |} |}).
Proof.
  cbn zeta.
  assert (Hcols : Z.of_nat (length (input_sequence (vars_before config)))
                  < 2 ^ 31) by (by vm_compute).
  assert (Hinv : replay_inv (input_sequence (vars_before config))
                   (initial_dyn config)
                   {| rp_i := 0; rp_j := 0;
                      rp_sim := saveState (main_sim (vars_before config)) |})
    by (repeat split; by vm_compute).
  split; [by split|].
  exact (render_in_bounds [3; 1000; 5]%nat 0
           (input_sequence (vars_before config)) (initial_dyn config) _
           Hcols Hinv).
Defined.

(** *** The further properties on the small instance *)

(** The first rule application of the small instance: rule 1 on the seed
    graph, at the position of its only node. *)
Lemma applications_at_first_match_demo :
  let rule := createRuleFromGraph
                (graph_of [node "robot"; node "body"; node "limb"]) in
  let t := events (apply_rule_sequence (Scalar:=float) (rules_of config)
                     seed_graph [1; 0; 5]%N) in
  (rule, seed_graph, 0%nat) ∈ applications t /\
  rule ∈ rules_of config /\
  head (findMatches (lhs_ rule) seed_graph) = Some 0%nat.
Proof.
  cbn zeta.
  assert (Hin :
    (createRuleFromGraph (graph_of [node "robot"; node "body"; node "limb"]),
     seed_graph, 0%nat)
      ∈ applications
          (events (apply_rule_sequence (Scalar:=float) (rules_of config)
                     seed_graph [1; 0; 5]%N)))
    by (apply (list_elem_of_lookup_2 _ 0%nat); vm_compute; reflexivity).
  split; [exact Hin|].
  exact (applications_at_first_match (Scalar:=float) (rules_of config)
           seed_graph [1; 0; 5]%N _ _ _ Hin).
Defined.

(** Indices 5 and 7 name no rule of the small instance. *)
Lemma out_of_range_sequence_demo :
  Forall (fun idx => (N.of_nat (length (rules_of config)) <= idx)%N)
    [5; 7]%N /\
  apply_rule_sequence (Scalar:=float) (rules_of config) seed_graph [5; 7]%N
  = (seed_graph, []).
Proof.
  assert (Hout : Forall
            (fun idx => (N.of_nat (length (rules_of config)) <= idx)%N)
            [5; 7]%N) by (repeat constructor; by vm_compute).
  split; [exact Hout|].
  exact (out_of_range_sequence (Scalar:=float) (rules_of config) seed_graph
           [5; 7]%N Hout).
Defined.

(** Three thousand million episodes are none. *)
Lemma episodes_run_demo :
  Z.of_N (episodes long_config) < 2 ^ 32 /\
  count_events is_train
    (events (optimization (Scalar:=float) long_config (inputs long_config)))
  = O /\
  optimization (Scalar:=float) long_config (inputs long_config) =
  ret (vars_before long_config).
Proof.
  assert (Hrange : Z.of_N (episodes long_config) < 2 ^ 32) by (by vm_compute).
  split; [exact Hrange|].
  destruct (episodes_run (Scalar:=float) long_config (inputs long_config)
              Hrange) as [Hcount Hnone].
  split; [exact Hcount|]. apply Hnone. right. by vm_compute.
Defined.

Lemma vars_before_sized_demo : vars_sized (vars_before config).
Proof. repeat split; vm_compute; reflexivity. Defined.

(** The returns of the first episode of the small instance, as sums. *)
Lemma returns_discounted_demo :
  vars_sized (vars_before config) /\
  let v' := value first_episode in
  forall t, (t <= episode_len)%nat ->
    returns v' !! t =
    Some (discounted (drop t (rewards v'))
            (estimateValue tt (obs v' !!! episode_len))).
Proof.
  split; [exact vars_before_sized_demo|].
  exact (returns_discounted (robot_idx_of config) (dof_count_of config)
           0 8 0 (vars_before config) vars_before_sized_demo).
Defined.

(** What the first episode of the small instance records. *)
Lemma episode_records_plan_demo :
  vars_sized (vars_before config) /\
  let v' := value first_episode in
  let m := input_sequence v' in
  let d0 := sim_dyn (main_sim (vars_before config)) in
  length m = episode_len /\
  (forall j, (j <= episode_len)%nat ->
     obs v' !! j = Some (getObservation tt (play 0 (take j m) d0))) /\
  (forall j, (j < episode_len)%nat ->
     rewards v' !! j =
     Some (step_reward 0 (m !!! j) (play 0 (take j m) d0))).
Proof.
  split; [exact vars_before_sized_demo|].
  exact (episode_records_plan (robot_idx_of config) (dof_count_of config)
           0 8 0 (vars_before config) vars_before_sized_demo).
Defined.

(** The plan of the first episode of the small instance. *)
Lemma episode_plan_demo :
  vars_sized (vars_before config) /\
  input_sequence (value first_episode) =
  map (planned tt
         (warmed tt (optimizer_params (dof_count_of config) 8
                       (generate (generator (vars_before config))).1)))
    (seq 0 episode_len).
Proof.
  split; [exact vars_before_sized_demo|].
  exact (episode_plan (robot_idx_of config) (dof_count_of config)
           0 8 0 (vars_before config) vars_before_sized_demo).
Defined.

(** The viewer on the plan of zeros. *)
Lemma viewer_cycle_demo :
  (Z.of_nat (length zero_plan) < 2 ^ 31 /\ (0 < length zero_plan)%nat) /\
  let cycle := (interval * length zero_plan)%nat in
  let run n := render_substeps n 0 zero_plan (replay_start saved_sim) in
  let back :=
    restoreState {| sim_dyn := play 0 zero_plan (sim_dyn saved_sim);
                    sim_saved := sim_saved saved_sim |} in
  (forall n, (n < cycle)%nat ->
     exists st,
       value (run n) = Some st /\
       rp_i st = Z.of_nat (n mod interval) /\
       rp_j st = Z.of_nat (n / interval) /\
       sim_dyn (rp_sim st) = play_steps 0 zero_plan n (sim_dyn saved_sim) /\
       sim_saved (rp_sim st) = sim_saved saved_sim /\
       count_events is_restore (events (run n)) = O) /\
  value (run cycle) = Some (replay_start back) /\
  count_events is_restore (events (run cycle)) = 1%nat /\
  (forall n,
     value (run (cycle + n)%nat) =
     value (render_substeps n 0 zero_plan (replay_start back))).
Proof.
  assert (Hcols : Z.of_nat (length zero_plan) < 2 ^ 31) by (by vm_compute).
  assert (Hpos : (0 < length zero_plan)%nat) by (vm_compute; lia).
  split; [by split|].
  exact (viewer_cycle (Scalar:=float) 0 zero_plan saved_sim Hcols Hpos).
Defined.

Lemma viewer_targets_demo :
  (Z.of_nat (length zero_plan) < 2 ^ 31 /\ (0 < length zero_plan)%nat) /\
  targets_of (events (render_substeps 1008 0 zero_plan
                        (replay_start saved_sim))) =
  map (fun k => zero_plan !!! ((k / interval) mod length zero_plan)%nat)
    (seq 0 1008).
Proof.
  assert (Hcols : Z.of_nat (length zero_plan) < 2 ^ 31) by (by vm_compute).
  assert (Hpos : (0 < length zero_plan)%nat) by (vm_compute; lia).
  split; [by split|].
  exact (viewer_targets (Scalar:=float) 1008 0 zero_plan saved_sim
           Hcols Hpos).
Defined.

(** The end of the run of the small instance without optimization. *)
Lemma run_shapes_demo :
  exists f : @Final float graph_types simulation null_estimator lcg,
    (parse_cli (inputs plain_config) = Parsed plain_config /\
     value (main (inputs plain_config)) = Exited 0 (Some f)) /\
    vars_sized (fin_vars f) /\
    length (replay_obs (fin_vars f)) =
      (episode_count_of plain_config * episode_len)%nat /\
    length (replay_returns (fin_vars f)) =
      (episode_count_of plain_config * episode_len)%nat.
Proof.
  eexists. split.
  - split; [reflexivity|]. vm_compute. reflexivity.
  - apply (run_shapes (inputs plain_config) plain_config 0 _ eq_refl).
    vm_compute. reflexivity.
Defined.

(** The run of the viewer of the small instance saves a snapshot. *)
Lemma snapshot_encoded_demo :
  (parse_cli (inputs viewer_config) = Parsed viewer_config /\
   loadGraphs (graph_file viewer_config) <> []) /\
  encoded (events (main (Scalar:=float) (inputs viewer_config))) =
    ["shot.png"] /\
  reported (events (main (Scalar:=float) (inputs viewer_config))) = [].
Proof.
  assert (Hgraphs : loadGraphs (graph_file viewer_config) <> [])
    by (vm_compute; discriminate).
  split; [by split|].
  destruct (snapshot_encoded (Scalar:=float) (inputs viewer_config)
              viewer_config eq_refl Hgraphs) as (Henc & Hrep & _).
  split; [exact Henc|exact Hrep].
Defined.

(** The first restore of the run of the small instance is its event
    number 3776. *)
Lemma saved_before_restored_demo :
  let t := events (main (Scalar:=float) (inputs config)) in
  t = take 3776 t ++ RestoreState :: drop 3777 t /\
  SaveState ∈ take 3776 t.
Proof.
  cbn zeta.
  assert (Hsplit :
    events (main (Scalar:=float) (inputs config)) =
    take 3776 (events (main (Scalar:=float) (inputs config)))
      ++ RestoreState
      :: drop 3777 (events (main (Scalar:=float) (inputs config)))).
  { symmetry. apply take_drop_middle. vm_compute. reflexivity. }
  split; [exact Hsplit|].
  exact (saved_before_restored (inputs config) _ _ Hsplit).
Defined.

(** The picture of two pixels by three is written with its rows in the
    reverse order. *)
Lemma snapshot_flipped_demo :
  exists flipped,
    flip_rows 2 3 picture fresh_buffer = Some flipped /\
    length flipped = length picture /\
    (forall r k : nat,
        Z.of_nat r < 3 -> Z.of_nat k < 4 * 2 ->
        flipped !! (r * Z.to_nat (4 * 2) + k)%nat
        = picture !! ((Z.to_nat 3 - 1 - r) * Z.to_nat (4 * 2) + k)%nat) /\
    (forall other,
        length other = length picture ->
        flip_rows 2 3 flipped other = Some picture).
Proof.
  apply (snapshot_flipped 2 3 picture fresh_buffer).
  - lia.
  - lia.
  - lia.
  - vm_compute. reflexivity.
  - vm_compute. reflexivity.
Defined.
